(** * Collatz-Conjecture-Checker: a shallow embedding of [Source/Main.cpp]

    The program reads a thread count, an iteration count and a start number,
    and then checks the Collatz conjecture batch after batch, every batch on
    [thread_count] freshly spawned threads.

    Conventions of the embedding.
    - A GMP integer ([mpz_t]) is a cell of a store; its contents are a [Z].
      [mpz_t] is an array type of length one, so a parameter or an argument
      of type [mpz_t] is the ADDRESS of the cell: the callee works on the
      caller's integer.  [std::thread] decay-copies its arguments, which
      turns the array into a pointer as well.
    - [uint64_t] is a [Z] reduced modulo [2^64]; [unsigned] is 32 bits wide
      and [unsigned long] 64 bits wide (the LP64 data model, in which a
      [uint64_t] reaches [mpz_add_ui] and [thread_procedure] unchanged).
    - A loop that may run forever takes fuel and answers [OutOfFuel] when it
      is exhausted; the use of a cell that is not initialised (or has been
      cleared) answers [Fault].
    - Threads interleave statement by statement: a schedule is the list of
      the threads that take a step, in order, and the statements of GMP
      are atomic.
    - Standard input is the list of the lines still to be read. *)

From stdpp Require Import gmap strings.
From Stdlib Require Import Ascii ZArith Lia.

Open Scope Z_scope.

(** ** Results of fallible, possibly diverging code *)

Inductive result (A : Type) : Type :=
| Ret (a : A)
| Fault
| OutOfFuel.

Arguments Ret {A} a.
Arguments Fault {A}.
Arguments OutOfFuel {A}.

#[global] Instance result_ret : MRet result := λ A a, Ret a.

#[global] Instance result_bind : MBind result := λ A B f r,
  match r with
  | Ret a => f a
  | Fault => Fault
  | OutOfFuel => OutOfFuel
  end.

Definition returns {A} (r : result A) : Prop := ∃ a, r = Ret a.

(** ** Machine integers *)

Definition UINT_BITS : Z := 32.
Definition ULONG_BITS : Z := 64.
Definition ULLONG_MAX : Z := 2 ^ 64 - 1.

(** Conversion to [unsigned], [unsigned long] and [uint64_t]. *)
Definition to_uint (x : Z) : Z := x mod 2 ^ UINT_BITS.
Definition to_ulong (x : Z) : Z := x mod 2 ^ ULONG_BITS.
Definition to_uint64 (x : Z) : Z := x mod 2 ^ 64.

(** ** The store of GMP integers *)

Abbreviation loc := positive.
Abbreviation heap := (gmap positive Z).

Definition mpz_read (x : loc) (h : heap) : result Z :=
  match h !! x with
  | Some v => Ret v
  | None => Fault
  end.

(** [mpz_init_set(rop, op)]: initialise [rop] with the value of [op]. *)
Definition mpz_init_set (rop op : loc) (h : heap) : result heap :=
  v ← mpz_read op h; Ret (<[rop := v]> h).

(** [mpz_clear(x)]: free the integer. *)
Definition mpz_clear (x : loc) (h : heap) : heap := delete x h.

(** [mpz_cmp_ui(op, n)]: the sign of [op - n]. *)
Definition mpz_cmp_ui (op : loc) (n : Z) (h : heap) : result comparison :=
  v ← mpz_read op h; Ret (v ?= n).

(** [mpz_even_p(op)]. *)
Definition mpz_even_p (op : loc) (h : heap) : result bool :=
  v ← mpz_read op h; Ret (Z.even v).

(** [mpz_add_ui(rop, op, n)]: [rop := op + n]; both are initialised. *)
Definition mpz_add_ui (rop op : loc) (n : Z) (h : heap) : result heap :=
  v ← mpz_read op h; _ ← mpz_read rop h; Ret (<[rop := v + n]> h).

(** [mpz_mul_ui(rop, op, n)]: [rop := op * n]. *)
Definition mpz_mul_ui (rop op : loc) (n : Z) (h : heap) : result heap :=
  v ← mpz_read op h; _ ← mpz_read rop h; Ret (<[rop := v * n]> h).

(** [mpz_divexact_ui(rop, op, d)]: [rop := op / d], defined only when [d]
    divides [op]. *)
Definition mpz_divexact_ui (rop op : loc) (d : Z) (h : heap) : result heap :=
  v ← mpz_read op h; _ ← mpz_read rop h;
  if v mod d =? 0 then Ret (<[rop := v / d]> h) else Fault.

(** ** [collatz_conjecture] (lines 18-40) *)

(** The [while (true)] loop of lines 23-37 on the local [number].  The
    natural number returned counts the Collatz steps taken (it is not a
    value of the program). *)
Fixpoint collatz_loop (fuel : nat) (number : loc) (h : heap)
  : result (nat * heap) :=
  match fuel with
  | O => OutOfFuel
  | S fuel' =>
      c ← mpz_cmp_ui number 1 h;
      match c with
      | Eq => Ret (O, h)
      | _ =>
          e ← mpz_even_p number h;
          h' ← (if e : bool then mpz_divexact_ui number number 2 h
                else h1 ← mpz_mul_ui number number 3 h;
                     mpz_add_ui number number 1 h1);
          '(k, h'') ← collatz_loop fuel' number h';
          Ret (S k, h'')
      end
  end.

(** The local [number] lives at an address that is not in use. *)
Definition collatz_conjecture (fuel : nat) (start_number : loc) (h : heap)
  : result (nat * heap) :=
  let number : loc := fresh (dom h) in
  h1 ← mpz_init_set number start_number h;
  '(k, h2) ← collatz_loop fuel number h1;
  Ret (k, mpz_clear number h2).

(** The same loop on the value of [number] alone: one round is the
    Collatz step. *)
Definition collatz_next (c : Z) : Z :=
  if Z.even c then c / 2 else 3 * c + 1.

(** The Collatz sequence from [n] reaches 1. *)
Definition reaches_one (n : Z) : Prop :=
  ∃ k : nat, Nat.iter k collatz_next n = 1.

Fixpoint collatz_steps (fuel : nat) (c : Z) : option nat :=
  match fuel with
  | O => None
  | S fuel' =>
      if c =? 1 then Some O
      else S <$> collatz_steps fuel' (collatz_next c)
  end.

(** ** [thread_procedure] (lines 44-51) *)

(** The [for] loop of lines 46-50.  The parameter [thread_start_number] is
    the address of the caller's integer, [i] is an [unsigned] and
    [iterations_per_thread] an [unsigned long].  The list returned records
    the values [collatz_conjecture] was called on, in order. *)
Fixpoint thread_loop (vfuel fuel : nat) (thread_start_number : loc)
    (iterations_per_thread i : Z) (h : heap) : result (list Z * heap) :=
  match fuel with
  | O => OutOfFuel
  | S fuel' =>
      if i <? iterations_per_thread then
        v ← mpz_read thread_start_number h;
        '(_, h1) ← collatz_conjecture vfuel thread_start_number h;
        h2 ← mpz_add_ui thread_start_number thread_start_number 1 h1;
        '(log, h3) ← thread_loop vfuel fuel' thread_start_number
                       iterations_per_thread (to_uint (i + 1)) h2;
        Ret (v :: log, h3)
      else Ret ([], h)
  end.

Definition thread_procedure (vfuel fuel : nat) (thread_start_number : loc)
    (iterations_per_thread : Z) (h : heap) : result (list Z * heap) :=
  thread_loop vfuel fuel thread_start_number iterations_per_thread 0 h.

(** *** [thread_procedure] as a running thread

    A thread that runs [thread_procedure] next to others is at one of three
    places: before the loop test and the call of line 48, before the
    increment of line 49, or past the loop.  [collatz_conjecture] reads its
    argument once, when it copies it, and then works on its local, so the
    call is one step. *)

Inductive worker_pc := WCall | WIncr | WDone.

Record worker := Worker {
  w_ptr : loc;          (* [thread_start_number]: the address received *)
  w_count : Z;          (* [iterations_per_thread] *)
  w_i : Z;              (* [i] *)
  w_pc : worker_pc;
  w_log : list Z        (* the values verified so far *)
}.

Definition spawn (thread_start_number : loc) (iterations_per_thread : Z)
  : worker :=
  Worker thread_start_number iterations_per_thread 0 WCall [].

Definition worker_step (vfuel : nat) (w : worker) (h : heap)
  : result (worker * heap) :=
  match w_pc w with
  | WCall =>
      if w_i w <? w_count w then
        v ← mpz_read (w_ptr w) h;
        '(_, h1) ← collatz_conjecture vfuel (w_ptr w) h;
        Ret (Worker (w_ptr w) (w_count w) (w_i w) WIncr (w_log w ++ [v]), h1)
      else Ret (Worker (w_ptr w) (w_count w) (w_i w) WDone (w_log w), h)
  | WIncr =>
      h1 ← mpz_add_ui (w_ptr w) (w_ptr w) 1 h;
      Ret (Worker (w_ptr w) (w_count w) (to_uint (w_i w + 1)) WCall (w_log w),
           h1)
  | WDone => Ret (w, h)
  end.

(** [n] steps of a thread that is alone. *)
Fixpoint worker_run (vfuel : nat) (n : nat) (w : worker) (h : heap)
  : result (worker * heap) :=
  match n with
  | O => Ret (w, h)
  | S n' => '(w', h') ← worker_step vfuel w h; worker_run vfuel n' w' h'
  end.

Definition worker_done (w : worker) : bool :=
  match w_pc w with WDone => true | _ => false end.

(** ** Reading the configuration (lines 55-72 and 82-100) *)

Definition char_code (c : ascii) : Z := Z.of_N (Ascii.N_of_ascii c).

(** The set of characters ["0123456789"]. *)
Definition is_digit (c : ascii) : bool :=
  (48 <=? char_code c) && (char_code c <=? 57).

Definition digit_value (c : ascii) : Z := char_code c - 48.

(** [isspace] in the C locale: space, and [\t \n \v \f \r]. *)
Definition isspace (c : ascii) : bool :=
  (char_code c =? 32) || ((9 <=? char_code c) && (char_code c <=? 13)).

(** [input.c_str()] as a C function reads it: up to the first NUL. *)
Fixpoint c_str (s : string) : string :=
  match s with
  | EmptyString => EmptyString
  | String c r => if char_code c =? 0 then EmptyString else String c (c_str r)
  end.

Fixpoint skip_space (s : string) : string :=
  match s with
  | String c r => if isspace c then skip_space r else s
  | EmptyString => s
  end.

(** The value of the longest prefix of decimal digits. *)
Fixpoint digits_prefix (s : string) (acc : Z) : Z :=
  match s with
  | String c r =>
      if is_digit c then digits_prefix r (acc * 10 + digit_value c) else acc
  | EmptyString => acc
  end.

(** [strtoull(s, nullptr, 10)]: white space, an optional sign, digits; zero
    when there is no digit, [ULLONG_MAX] when the value does not fit, the
    negation modulo [2^64] after a minus sign. *)
Definition strtoull (s : string) : Z :=
  let s1 := skip_space s in
  let '(neg, s2) :=
    match s1 with
    | String c r =>
        if char_code c =? 45 then (true, r)
        else if char_code c =? 43 then (false, r)
        else (false, s1)
    | EmptyString => (false, s1)
    end in
  let v := digits_prefix s2 0 in
  if ULLONG_MAX <? v then ULLONG_MAX
  else if neg : bool then to_uint64 (- v) else v.

(** [input.find_first_not_of("0123456789") == std::string::npos] *)
Fixpoint is_numeric (input : string) : bool :=
  match input with
  | EmptyString => true
  | String c r => is_digit c && is_numeric r
  end.

(** Another round of an input loop: one more prompt has been printed. *)
Definition reprompted {A : Type} (r : option (A * nat * list string))
  : option (A * nat * list string) :=
  '(a, prompts, rest) ← r; Some (a, S prompts, rest).

(** [get_int64] (lines 55-72).  Every round of the loop prints the prompt
    and consumes one line; the count of the prompts printed is returned
    next to the result.  When the lines run out before a valid one is read
    the loop does not return. *)
Fixpoint get_int64 (stdin : list string) : option (Z * nat * list string) :=
  match stdin with
  | [] => None
  | input :: rest =>
      let result := strtoull (c_str input) in
      if is_numeric input && negb (result =? ULLONG_MAX) && (0 <? result)
      then Some (result, 1%nat, rest)
      else reprompted (get_int64 rest)
  end.

(** Digits with white space between them, as [mpz_set_str] accepts them. *)
Fixpoint mpz_digits (s : string) (acc : Z) : option Z :=
  match s with
  | EmptyString => Some acc
  | String c r =>
      if isspace c then mpz_digits r acc
      else if is_digit c then mpz_digits r (acc * 10 + digit_value c)
      else None
  end.

(** The number [mpz_set_str(x, s, 10)] reads: leading white space, an
    optional minus sign, a digit, then digits and white space up to the end
    of the string; [None] when it reports an error. *)
Definition mpz_set_str (s : string) : option Z :=
  let s1 := skip_space s in
  let '(neg, s2) :=
    match s1 with
    | String c r => if char_code c =? 45 then (true, r) else (false, s1)
    | EmptyString => (false, s1)
    end in
  match s2 with
  | String c _ =>
      if is_digit c
      then v ← mpz_digits s2 0; Some (if neg : bool then - v else v)
      else None
  | EmptyString => None
  end.

(** [mpz_init_set_str(rop, s, 10)]: [rop] is initialised to zero and then
    set as by [mpz_set_str], which leaves it alone on an error. *)
Definition mpz_init_set_str (rop : loc) (s : string) (h : heap) : heap :=
  <[rop := default 0 (mpz_set_str s)]> h.

(** The integers of [main]. *)
Definition batch_start_number : loc := 1%positive.
Definition batch_end_number : loc := 2%positive.
Definition thread_start_number : loc := 3%positive.

(** The loop of lines 93-100. *)
Fixpoint get_start (stdin : list string) (h : heap)
  : option (heap * nat * list string) :=
  match stdin with
  | [] => None
  | input :: rest =>
      let h1 := mpz_init_set_str batch_start_number (c_str input) h in
      match mpz_cmp_ui batch_start_number 0 h1 with
      | Ret Gt => Some (h1, 1%nat, rest)
      | _ => reprompted (get_start rest h1)
      end
  end.

(** ** [main] *)

Record settings := Settings {
  thread_count : Z;
  iterations_per_thread : Z
}.

(** Line 106: a product of two [uint64_t]. *)
Definition batch_size (cf : settings) : Z :=
  to_uint64 (thread_count cf * iterations_per_thread cf).

(** Lines 82-103: the three values read, and the store with
    [batch_start_number] and [batch_end_number]. *)
Definition read_config (stdin : list string)
  : option (settings * heap * list string) :=
  '(tc, _, in1) ← get_int64 stdin;
  '(ipt, _, in2) ← get_int64 in1;
  '(h, _, in3) ← get_start in2 ∅;
  match mpz_init_set batch_end_number batch_start_number h with
  | Ret h' => Some (Settings tc ipt, h', in3)
  | _ => None
  end.

(** *** The batch loop (lines 114-145)

    The main thread is at one of the places below; every step is one
    statement of the loop. *)

Inductive main_pc :=
| PTrying     (* lines 116-117: advance the end, print the range *)
| PInit       (* lines 122-126: [threads], [thread_start_number], [i = 0] *)
| PLaunch     (* lines 126-129: the loop test and [emplace_back] *)
| PAdvance    (* lines 131 and 126: [mpz_add_ui] and [++i] *)
| PClear      (* line 134 *)
| PJoin       (* line 137 *)
| PNext.      (* line 144 *)

Record config := Config {
  c_heap : heap;
  c_pc : main_pc;
  c_i : Z;                    (* the [unsigned i] of line 126 *)
  c_threads : list worker;    (* [threads] *)
  c_batches : nat;            (* how often line 144 has run *)
  c_out : list (Z * Z)        (* the ranges printed by line 117 *)
}.

Definition main_step (cf : settings) (c : config) : result config :=
  let h := c_heap c in
  match c_pc c with
  | PTrying =>
      h1 ← mpz_add_ui batch_end_number batch_end_number
             (to_ulong (batch_size cf)) h;
      s ← mpz_read batch_start_number h1;
      e ← mpz_read batch_end_number h1;
      Ret (Config h1 PInit (c_i c) (c_threads c) (c_batches c)
             (c_out c ++ [(s, e)]))
  | PInit =>
      h1 ← mpz_init_set thread_start_number batch_start_number h;
      Ret (Config h1 PLaunch 0 [] (c_batches c) (c_out c))
  | PLaunch =>
      if c_i c <? thread_count cf then
        Ret (Config h PAdvance (c_i c)
               (c_threads c ++
                  [spawn thread_start_number
                     (to_ulong (iterations_per_thread cf))])
               (c_batches c) (c_out c))
      else Ret (Config h PClear (c_i c) (c_threads c) (c_batches c) (c_out c))
  | PAdvance =>
      h1 ← mpz_add_ui thread_start_number thread_start_number
             (to_ulong (iterations_per_thread cf)) h;
      Ret (Config h1 PLaunch (to_uint (c_i c + 1)) (c_threads c)
             (c_batches c) (c_out c))
  | PClear =>
      Ret (Config (mpz_clear thread_start_number h) PJoin (c_i c)
             (c_threads c) (c_batches c) (c_out c))
  | PJoin =>
      if forallb worker_done (c_threads c)
      then Ret (Config h PNext (c_i c) (c_threads c) (c_batches c) (c_out c))
      else Ret c
  | PNext =>
      h1 ← mpz_add_ui batch_start_number batch_start_number
             (to_ulong (batch_size cf)) h;
      Ret (Config h1 PTrying (c_i c) (c_threads c) (S (c_batches c))
             (c_out c))
  end.

(** The configuration after a step of the thread [threads[k]]. *)
Definition with_thread (c : config) (k : nat) (w' : worker) (h' : heap)
  : config :=
  Config h' (c_pc c) (c_i c) (<[k := w']> (c_threads c)) (c_batches c)
    (c_out c).

(** One step of the thread [tid]: [0] is the main thread, [S k] the thread
    [threads[k]].  A thread that does not exist, has returned, or waits in
    [join] leaves the configuration as it is. *)
Definition step (vfuel : nat) (cf : settings) (tid : nat) (c : config)
  : result config :=
  match tid with
  | O => main_step cf c
  | S k =>
      match c_threads c !! k with
      | None => Ret c
      | Some w =>
          '(w', h') ← worker_step vfuel w (c_heap c);
          Ret (with_thread c k w' h')
      end
  end.

(** A run under a schedule: the list of the threads that step, in order. *)
Fixpoint run (vfuel : nat) (cf : settings) (sched : list nat) (c : config)
  : result config :=
  match sched with
  | [] => Ret c
  | tid :: sched' => c' ← step vfuel cf tid c; run vfuel cf sched' c'
  end.

(** The configuration on entry to the loop of line 114. *)
Definition initial_config (h : heap) : config :=
  Config h PTrying 0 [] O [].

(** The store after lines 90-103 for a start number [s]. *)
Definition initial_heap (s : Z) : heap :=
  <[batch_end_number := s]> (<[batch_start_number := s]> ∅).

(** The whole program: read the configuration, then loop. *)
Definition program (vfuel : nat) (stdin : list string) (sched : list nat)
  : option (settings * result config) :=
  '(cf, h, _) ← read_config stdin;
  Some (cf, run vfuel cf sched (initial_config h)).

(** *** Schedules *)

(** The main thread takes [n] steps. *)
Definition main_steps (n : nat) : list nat := replicate n O.

(** Thread [k] runs [thread_procedure] to its end for [count] rounds. *)
Definition worker_steps (k : nat) (count : nat) : list nat :=
  replicate (2 * count + 1) (S k).

(** Every thread runs to its end as soon as it is launched. *)
Fixpoint eager_launches (first : nat) (threads count : nat) : list nat :=
  match threads with
  | O => []
  | S n =>
      O :: worker_steps first count ++ O :: eager_launches (S first) n count
  end.

Definition eager_batch (threads count : nat) : list nat :=
  main_steps 2 ++ eager_launches 0 threads count ++ main_steps 4.

(** No thread moves before the main thread waits in [join]. *)
Fixpoint late_workers (first : nat) (threads count : nat) : list nat :=
  match threads with
  | O => []
  | S n => worker_steps first count ++ late_workers (S first) n count
  end.

Definition late_batch (threads count : nat) : list nat :=
  main_steps (2 + 2 * threads + 2) ++ late_workers 0 threads count
    ++ main_steps 2.

(** ** Checking a range of start values by evaluation *)

(** The bound up to which the Collatz sequences are run here. *)
Definition verified_bound : Z := 10000.

(** Fuel that suffices below [verified_bound]. *)
Definition verified_fuel : nat := 300.

(** [collatz_steps fuel] answers on [from], [from + 1], ..., [count] of
    them. *)
Fixpoint halts_upto (fuel : nat) (count : nat) (from : Z) : bool :=
  match count with
  | O => true
  | S count' =>
      match collatz_steps fuel from with
      | Some _ => halts_upto fuel count' (from + 1)
      | None => false
      end
  end.


(** ** Invariants of the batch loop *)

(** [batch_start_number] holds the start number plus one batch size for
    every batch done, and every thread holds the address of
    [thread_start_number]. *)
Definition batch_inv (cf : settings) (s0 : Z) (c : config) : Prop :=
  c_heap c !! batch_start_number
    = Some (s0 + Z.of_nat (c_batches c) * batch_size cf) ∧
  Forall (λ w, w_ptr w = thread_start_number) (c_threads c).

(** The main thread is still in its first launch loop. *)
Definition in_first_launch_loop (c : config) : Prop :=
  c_batches c = O ∧ 0 ≤ c_i c < 2 ^ UINT_BITS ∧
  match c_pc c with
  | PTrying | PInit | PLaunch | PAdvance => True
  | PClear | PJoin | PNext => False
  end.

(** *** Bookkeeping for the first batch *)

(** How often a thread has run the increment of line 49. *)
Definition incs_done (w : worker) : nat :=
  (length (w_log w) - match w_pc w with WIncr => 1 | _ => 0 end)%nat.

(** The increments of the first thread of the batch. *)
Definition first_incs (c : config) : Z :=
  match c_threads c !! O with
  | Some w => Z.of_nat (incs_done w)
  | None => 0
  end.

(** How often line 131 has run in the batch. *)
Definition adds_done (c : config) : Z :=
  match c_pc c with
  | PAdvance => Z.of_nat (length (c_threads c)) - 1
  | _ => Z.of_nat (length (c_threads c))
  end.

(** The [pos]th value the thread [threads[j]] has verified. *)
Definition verified (c : config) (j pos : nat) : option Z :=
  w ← c_threads c !! j; w_log w !! pos.

(** In the first batch [thread_start_number] has taken every addition of
    the main thread and every increment of the first thread; and of the
    second value of the first thread and the first value of the second
    thread, one is beyond where the partition puts it. *)
Definition first_batch_inv (cf : settings) (s : Z) (c : config) : Prop :=
  c_batches c = O →
  (∀ v, c_heap c !! thread_start_number = Some v →
        s + to_ulong (iterations_per_thread cf) * adds_done c + first_incs c
          ≤ v) ∧
  (∀ a b,
     verified c 0 1 = Some a → verified c 1 0 = Some b →
     s + to_ulong (iterations_per_thread cf) + 1 ≤ b ∨
     s + to_ulong (iterations_per_thread cf) ≤ a).

(** The logs the partition of the batch [[s, s + T * I)] would give:
    thread [i] verifies [s + i * I], ..., [s + (i + 1) * I - 1]. *)
Definition partition_logs (s : Z) (threads count : nat) : list (list Z) :=
  (λ i, (λ k, s + Z.of_nat i * Z.of_nat count + Z.of_nat k) <$> seq 0 count)
    <$> seq 0 threads.

(** ** [std::to_string] and the prompt of lines 78-83 *)

(** The character of the decimal digit [d]. *)
Definition digit_char (d : Z) : ascii := Ascii.ascii_of_N (Z.to_N (48 + d)).

(** The decimal digits of [n], most significant first, in front of [acc]. *)
Fixpoint to_string_go (fuel : nat) (n : Z) (acc : string) : string :=
  match fuel with
  | O => acc
  | S fuel' =>
      let acc' := String (digit_char (n mod 10)) acc in
      if n / 10 =? 0 then acc' else to_string_go fuel' (n / 10) acc'
  end.

(** [std::to_string(n)] for an unsigned [n]; [n] has no more decimal
    digits than binary ones. *)
Definition to_string (n : Z) : string :=
  to_string_go (S (Z.to_nat (Z.log2 n))) n EmptyString.

(** Line 78, for the value [hw] of [std::thread::hardware_concurrency()]:
    a division of two [unsigned]. *)
Definition recommended_thread_count (hw : Z) : Z := to_uint (hw / 2).

(** ** More invariants of the batch loop *)

(** The [k]th range line 117 prints, for the start number [s0]. *)
Definition announced (cf : settings) (s0 : Z) (k : nat) : Z * Z :=
  (s0 + Z.of_nat k * batch_size cf, s0 + (Z.of_nat k + 1) * batch_size cf).

(** The ranges printed so far are the first ones of that sequence, one per
    batch begun, and [batch_end_number] holds the end of the last one. *)
Definition out_inv (cf : settings) (s0 : Z) (c : config) : Prop :=
  c_out c = announced cf s0 <$> seq 0 (length (c_out c)) ∧
  match c_pc c with
  | PTrying =>
      length (c_out c) = c_batches c ∧
      c_heap c !! batch_end_number
        = Some (s0 + Z.of_nat (c_batches c) * batch_size cf)
  | _ =>
      length (c_out c) = S (c_batches c) ∧
      c_heap c !! batch_end_number
        = Some (s0 + (Z.of_nat (c_batches c) + 1) * batch_size cf)
  end.

(** Outside the launch loop and the join, every thread has returned. *)
Definition barrier_inv (c : config) : Prop :=
  match c_pc c with
  | PNext | PTrying | PInit => Forall (λ w, w_pc w = WDone) (c_threads c)
  | _ => True
  end.

(** The launch loop counts the threads it has launched, and hands each
    one the iteration count. *)
Definition launch_inv (cf : settings) (c : config) : Prop :=
  Forall (λ w, w_count w = to_ulong (iterations_per_thread cf)) (c_threads c) ∧
  match c_pc c with
  | PLaunch =>
      Z.of_nat (length (c_threads c)) = c_i c ∧ c_i c ≤ thread_count cf
  | PAdvance =>
      Z.of_nat (length (c_threads c)) = c_i c + 1 ∧
      c_i c + 1 ≤ thread_count cf
  | PClear | PJoin | PNext =>
      Z.of_nat (length (c_threads c)) = thread_count cf
  | PTrying | PInit => True
  end.

(** A thread counts its rounds: the values verified are as many as [i]
    says, one more between the call and the increment. *)
Definition rounds_inv (w : worker) : Prop :=
  0 ≤ w_i w ≤ w_count w ∧
  match w_pc w with
  | WCall => Z.of_nat (length (w_log w)) = w_i w
  | WIncr => Z.of_nat (length (w_log w)) = w_i w + 1 ∧ w_i w < w_count w
  | WDone => Z.of_nat (length (w_log w)) = w_i w ∧ w_i w = w_count w
  end.

(** Between line 134 and line 124 [thread_start_number] is not
    initialised. *)
Definition cleared_inv (c : config) : Prop :=
  match c_pc c with
  | PJoin | PNext | PTrying | PInit =>
      c_heap c !! thread_start_number = None
  | _ => True
  end.

(** A thread that still has a statement to run on its integer. *)
Definition pending (w : worker) : bool :=
  match w_pc w with
  | WCall => w_i w <? w_count w
  | WIncr => true
  | WDone => false
  end.

(** * Properties *)

(** ** The store *)

Lemma mpz_read_Some (x : loc) (h : heap) (v : Z) :
  h !! x = Some v → mpz_read x h = Ret v.
Proof. unfold mpz_read. by intros ->. Qed.

Lemma mpz_read_Ret (x : loc) (h : heap) (v : Z) :
  mpz_read x h = Ret v → h !! x = Some v.
Proof. unfold mpz_read. destruct (h !! x); congruence. Qed.

Lemma fresh_unused (h : heap) : h !! fresh (dom h) = None.
Proof. apply not_elem_of_dom, is_fresh. Qed.

Lemma even_divides (c : Z) : Z.even c = true → c mod 2 = 0 ∧ 2 * (c / 2) = c.
Proof.
  intros He. rewrite Zeven_mod in He. apply Z.eqb_eq in He.
  split; [exact He |]. pose proof (Z.div_mod c 2). lia.
Qed.

(** ** The verifier *)

(** One round of the loop of [collatz_conjecture], on the store. *)
Lemma collatz_loop_unfold (fuel : nat) (number : loc) (h : heap) (c : Z) :
  h !! number = Some c →
  collatz_loop (S fuel) number h =
    if c =? 1 then Ret (O, h)
    else '(k, h') ← collatz_loop fuel number (<[number := collatz_next c]> h);
         Ret (S k, h').
Proof.
  intros Hc. cbn [collatz_loop]. unfold mpz_cmp_ui, mpz_even_p.
  rewrite (mpz_read_Some _ _ _ Hc). cbn.
  destruct (Z.eqb_spec c 1) as [-> | Hne]; [done |].
  assert (Hrest :
    (h' ← (if Z.even c then mpz_divexact_ui number number 2 h
           else h1 ← mpz_mul_ui number number 3 h;
                mpz_add_ui number number 1 h1);
     '(k, h'') ← collatz_loop fuel number h'; Ret (S k, h''))
    = '(k, h') ← collatz_loop fuel number (<[number := collatz_next c]> h);
      Ret (S k, h')).
  { unfold collatz_next. destruct (Z.even c) eqn:He.
    - unfold mpz_divexact_ui. rewrite (mpz_read_Some _ _ _ Hc). cbn.
      destruct (even_divides c He) as [-> _]. done.
    - unfold mpz_mul_ui, mpz_add_ui. rewrite (mpz_read_Some _ _ _ Hc). cbn.
      rewrite (mpz_read_Some _ (<[number := c * 3]> h) (c * 3))
        by apply lookup_insert_eq.
      cbn. rewrite insert_insert_eq. by replace (c * 3 + 1) with (3 * c + 1) by lia. }
  destruct (c ?= 1) eqn:Hcmp; [apply Z.compare_eq in Hcmp; lia | exact Hrest ..].
Qed.

(** The loop on the store follows [collatz_steps] on the value of
    [number], and leaves [number] at 1. *)
Lemma collatz_loop_steps (fuel : nat) (number : loc) (h : heap) (c : Z) :
  h !! number = Some c →
  collatz_loop fuel number h =
    match collatz_steps fuel c with
    | Some k => Ret (k, <[number := 1]> h)
    | None => OutOfFuel
    end.
Proof.
  revert h c. induction fuel as [| fuel IH]; intros h c Hc; [done |].
  rewrite (collatz_loop_unfold _ _ _ _ Hc). cbn [collatz_steps].
  destruct (Z.eqb_spec c 1) as [-> | Hne].
  - by rewrite insert_id.
  - rewrite (IH _ (collatz_next c)) by apply lookup_insert_eq.
    destruct (collatz_steps fuel (collatz_next c)); cbn; [| done].
    by rewrite insert_insert_eq.
Qed.

(** [collatz_conjecture] on a cell that holds [c]. *)
Lemma collatz_conjecture_steps (fuel : nat) (start_number : loc) (h : heap)
    (c : Z) :
  h !! start_number = Some c →
  collatz_conjecture fuel start_number h =
    match collatz_steps fuel c with
    | Some k => Ret (k, h)
    | None => OutOfFuel
    end.
Proof.
  intros Hc. unfold collatz_conjecture, mpz_init_set.
  rewrite (mpz_read_Some _ _ _ Hc). cbn.
  rewrite (collatz_loop_steps _ _ _ c) by apply lookup_insert_eq.
  destruct (collatz_steps fuel c); cbn; [| done].
  unfold mpz_clear. rewrite insert_insert_eq, delete_insert_id; [done |].
  apply fresh_unused.
Qed.

Lemma collatz_conjecture_unset (fuel : nat) (start_number : loc) (h : heap) :
  h !! start_number = None → collatz_conjecture fuel start_number h = Fault.
Proof.
  intros Hc. unfold collatz_conjecture, mpz_init_set, mpz_read. by rewrite Hc.
Qed.


Lemma halts_upto_spec (fuel count : nat) (from n : Z) :
  halts_upto fuel count from = true →
  from ≤ n < from + Z.of_nat count →
  is_Some (collatz_steps fuel n).
Proof.
  revert from. induction count as [| count IH]; intros from Hall Hn; [lia |].
  cbn [halts_upto] in Hall.
  destruct (collatz_steps fuel from) as [k |] eqn:Hk; [| done].
  destruct (decide (n = from)) as [-> | Hne]; [by rewrite Hk |].
  apply (IH (from + 1)); [done | lia].
Qed.

Lemma halts_below_verified_bound :
  halts_upto verified_fuel (Z.to_nat (verified_bound - 1)) 1 = true.
Proof. vm_cast_no_check (eq_refl true). Qed.


(** One round of the loop of lines 23-37 on the store: the working value
    [c] in [number] is replaced by [c / 2], which is exact, when it is
    even and by [3 * c + 1] when it is odd; the loop leaves at once when
    [c = 1], and whenever it returns [number] holds 1. *)
Lemma collatz_loop_round (fuel : nat) (number : loc) (h : heap) (c : Z) :
  h !! number = Some c →
  (c = 1 → collatz_loop (S fuel) number h = Ret (O, h)) ∧
  (c ≠ 1 → Z.even c = true →
     2 * (c / 2) = c ∧
     collatz_loop (S fuel) number h =
       '(k, h') ← collatz_loop fuel number (<[number := c / 2]> h);
       Ret (S k, h')) ∧
  (c ≠ 1 → Z.even c = false →
     collatz_loop (S fuel) number h =
       '(k, h') ← collatz_loop fuel number (<[number := 3 * c + 1]> h);
       Ret (S k, h')) ∧
  (∀ k h', collatz_loop (S fuel) number h = Ret (k, h') →
     h' !! number = Some 1 ∧ (k = O ↔ c = 1)).
Proof.
  intros Hc. pose proof (collatz_loop_unfold fuel number h c Hc) as Hu.
  split; [| split; [| split]].
  - intros ->. by rewrite Hu.
  - intros Hne Heven. split; [by apply even_divides |].
    rewrite Hu. destruct (Z.eqb_spec c 1); [done |].
    unfold collatz_next. by rewrite Heven.
  - intros Hne Hodd. rewrite Hu. destruct (Z.eqb_spec c 1); [done |].
    unfold collatz_next. by rewrite Hodd.
  - intros k h' Hrun. split.
    + rewrite (collatz_loop_steps _ _ _ c Hc) in Hrun.
      destruct (collatz_steps (S fuel) c); [| done].
      injection Hrun as _ <-. apply lookup_insert_eq.
    + rewrite Hu in Hrun. destruct (Z.eqb_spec c 1) as [-> | Hne].
      * by injection Hrun as <- _.
      * destruct (collatz_loop fuel number _) as [[k' h'']| |];
          cbn [mbind result_bind] in Hrun; [| done ..].
        injection Hrun as <- _. done.
Qed.

(** The steps [collatz_steps] counts are steps of the Collatz sequence. *)
Lemma collatz_steps_iter (fuel : nat) (c : Z) (k : nat) :
  collatz_steps fuel c = Some k → Nat.iter k collatz_next c = 1.
Proof.
  revert c k. induction fuel as [| fuel IH]; intros c k; [done |].
  cbn [collatz_steps]. destruct (Z.eqb_spec c 1) as [-> | Hne].
  - by intros [= <-].
  - destruct (collatz_steps fuel (collatz_next c)) as [k' |] eqn:Hk; [| done].
    cbn. intros [= <-]. rewrite Nat.iter_succ_r. by apply IH.
Qed.

(** ... and the sequence is not at 1 before the last of them. *)
Lemma collatz_steps_first (fuel : nat) (c : Z) (k : nat) :
  collatz_steps fuel c = Some k →
  ∀ j, (j < k)%nat → Nat.iter j collatz_next c ≠ 1.
Proof.
  revert c k. induction fuel as [| fuel IH]; intros c k; [done |].
  cbn [collatz_steps]. destruct (Z.eqb_spec c 1) as [-> | Hne].
  - intros [= <-] j Hj. lia.
  - destruct (collatz_steps fuel (collatz_next c)) as [k' |] eqn:Hk; [| done].
    cbn. intros [= <-] [| j] Hj; [done |].
    rewrite Nat.iter_succ_r. apply (IH _ _ Hk). lia.
Qed.

(** What a return of the verifier says about the Collatz sequence from
    the value it was called on. *)
Lemma collatz_conjecture_return (fuel : nat) (start_number : loc)
    (h h' : heap) (c : Z) (k : nat) :
  h !! start_number = Some c →
  collatz_conjecture fuel start_number h = Ret (k, h') →
  (k = O ↔ c = 1) ∧ Nat.iter k collatz_next c = 1 ∧
  ∀ j, (j < k)%nat → Nat.iter j collatz_next c ≠ 1.
Proof.
  intros Hc Hrun. rewrite (collatz_conjecture_steps _ _ _ c Hc) in Hrun.
  destruct (collatz_steps fuel c) as [k' |] eqn:Hk; [| done].
  injection Hrun as -> _.
  pose proof (collatz_steps_iter _ _ _ Hk) as Hiter.
  pose proof (collatz_steps_first _ _ _ Hk) as Hfirst.
  split; [| done]. split.
  - by intros ->.
  - intros ->. destruct k as [| k]; [done |].
    by destruct (Hfirst O ltac:(lia)).
Qed.

(** C3: the verifier loops while its working value is not 1, one Collatz
    step per round.  Called on an integer that holds [c], it returns at
    once, after no step, when [c = 1]; otherwise its first round replaces
    the working value by [c / 2], which is exact ([2 * (c / 2) = c]), when
    [c] is even and by [3 * c + 1] when [c] is odd, and the rest of the
    call is what the verifier does on that value.  Whenever it returns
    after [k] rounds, the Collatz sequence from [c] is at 1 after [k]
    steps and not before, and its loop has left with the local [number]
    at 1: the loop leaves exactly when the working value is 1. *)
Theorem C3_verifier_round (fuel : nat) (start_number : loc) (h : heap)
    (c : Z) :
  h !! start_number = Some c →
  (c = 1 → collatz_conjecture (S fuel) start_number h = Ret (O, h)) ∧
  (c ≠ 1 → Z.even c = true →
     2 * (c / 2) = c ∧
     collatz_conjecture (S fuel) start_number h =
       '(k, _) ← collatz_conjecture fuel start_number
                   (<[start_number := c / 2]> h);
       Ret (S k, h)) ∧
  (c ≠ 1 → Z.even c = false →
     collatz_conjecture (S fuel) start_number h =
       '(k, _) ← collatz_conjecture fuel start_number
                   (<[start_number := 3 * c + 1]> h);
       Ret (S k, h)) ∧
  (∀ k h', collatz_conjecture fuel start_number h = Ret (k, h') →
     (k = O ↔ c = 1) ∧ Nat.iter k collatz_next c = 1 ∧
     (∀ j, (j < k)%nat → Nat.iter j collatz_next c ≠ 1) ∧
     let number := fresh (dom h) in
     ∃ h2, collatz_loop fuel number (<[number := c]> h) = Ret (k, h2) ∧
           h2 !! number = Some 1).
Proof.
  intros Hc.
  assert (Hround : c ≠ 1 →
            collatz_conjecture (S fuel) start_number h =
              '(k, _) ← collatz_conjecture fuel start_number
                          (<[start_number := collatz_next c]> h);
              Ret (S k, h)).
  { intros Hne. rewrite (collatz_conjecture_steps _ _ _ c Hc).
    rewrite (collatz_conjecture_steps _ _ _ (collatz_next c))
      by apply lookup_insert_eq.
    cbn [collatz_steps]. destruct (Z.eqb_spec c 1); [done |].
    by destruct (collatz_steps fuel (collatz_next c)). }
  split; [| split; [| split]].
  - intros ->. by rewrite (collatz_conjecture_steps _ _ _ 1 Hc).
  - intros Hne Heven. split; [by apply even_divides |].
    rewrite (Hround Hne). unfold collatz_next. by rewrite Heven.
  - intros Hne Hodd. rewrite (Hround Hne). unfold collatz_next.
    by rewrite Hodd.
  - intros k h' Hrun.
    destruct (collatz_conjecture_return _ _ _ _ _ _ Hc Hrun)
      as (Hzero & Hiter & Hfirst).
    repeat split; [by apply Hzero | by apply Hzero | done | done |].
    intros number. rewrite (collatz_conjecture_steps _ _ _ c Hc) in Hrun.
    rewrite (collatz_loop_steps _ _ _ c) by apply lookup_insert_eq.
    destruct (collatz_steps fuel c) as [k' |]; [| done].
    injection Hrun as -> _. eexists. split; [done |].
    apply lookup_insert_eq.
Qed.

Lemma C3_verifier_round_witness :
  collatz_conjecture 9 1%positive {[1%positive := 6]}
    = Ret (8%nat, {[1%positive := 6]}).
Proof.
  pose proof (C3_verifier_round 8 1%positive {[1%positive := 6]} 6
                (lookup_singleton_eq _ _)) as (_ & Heven & _ & _).
  destruct Heven as [_ Hround]; [lia | reflexivity |].
  rewrite Hround. vm_compute. reflexivity.
Defined.

(** C6: the verifier leaves the store as it found it; in particular the
    caller's integer holds after the call the value it held before.  The
    verifier works on its local [number] alone. *)
Theorem C6_verifier_preserves_caller (fuel : nat) (start_number : loc)
    (h h' : heap) (v : Z) (k : nat) :
  h !! start_number = Some v →
  collatz_conjecture fuel start_number h = Ret (k, h') →
  h' !! start_number = Some v ∧ h' = h.
Proof.
  intros Hv Hrun. rewrite (collatz_conjecture_steps _ _ _ v Hv) in Hrun.
  destruct (collatz_steps fuel v); [| done]. by injection Hrun as _ <-.
Qed.

Lemma C6_verifier_preserves_caller_witness :
  collatz_conjecture 20 5%positive {[5%positive := 6]}
    = Ret (8%nat, {[5%positive := 6]}) ∧
  ({[5%positive := 6]} : heap) !! 5%positive = Some 6.
Proof.
  assert (Hrun : collatz_conjecture 20 5%positive {[5%positive := 6]}
                 = Ret (8%nat, {[5%positive := 6]}))
    by (vm_compute; reflexivity).
  split; [exact Hrun |].
  exact (proj1 (C6_verifier_preserves_caller 20 5%positive {[5%positive := 6]}
                  {[5%positive := 6]} 6 8 (lookup_singleton_eq _ _) Hrun)).
Defined.

Lemma reaches_one_steps (c : Z) :
  reaches_one c ↔ ∃ fuel, is_Some (collatz_steps fuel c).
Proof.
  split.
  - intros [k Hk]. revert c Hk. induction k as [| k IH]; intros c Hk.
    + cbn in Hk. subst c. by exists 1%nat, O.
    + rewrite Nat.iter_succ_r in Hk. destruct (IH _ Hk) as (fuel & k' & Hk').
      exists (S fuel). cbn [collatz_steps]. destruct (c =? 1); [done |].
      by rewrite Hk'.
  - intros (fuel & k & Hk). exists k. by apply (collatz_steps_iter fuel).
Qed.

(** The Collatz sequence from every [1 ≤ m < verified_bound] reaches 1. *)
Lemma reaches_one_below_verified_bound (m : Z) :
  1 ≤ m < verified_bound → reaches_one m.
Proof.
  intros Hm. apply reaches_one_steps. exists verified_fuel.
  apply (halts_upto_spec _ _ 1 _ halts_below_verified_bound).
  unfold verified_bound in *. lia.
Qed.

(** C5: for a bound [B] below which the Collatz sequence from every
    positive integer is known to reach 1, the verifier returns on every
    [1 ≤ n < B], and it returns because the working value has reached 1:
    the number [k] of rounds it has run is the first index at which the
    Collatz sequence from [n] is at 1.  On [n = 1] it returns after zero
    Collatz steps. *)
Theorem C5_verifier_halts_below_bound (B n : Z) (start_number : loc)
    (h : heap) :
  (∀ m, 1 ≤ m < B → reaches_one m) →
  1 ≤ n < B →
  h !! start_number = Some n →
  ∃ fuel k, collatz_conjecture fuel start_number h = Ret (k, h) ∧
            Nat.iter k collatz_next n = 1 ∧
            (∀ j, (j < k)%nat → Nat.iter j collatz_next n ≠ 1) ∧
            (n = 1 → k = O).
Proof.
  intros Hbound Hn Hc.
  destruct (proj1 (reaches_one_steps n) (Hbound n Hn)) as (fuel & k & Hk).
  assert (Hrun : collatz_conjecture fuel start_number h = Ret (k, h))
    by by rewrite (collatz_conjecture_steps _ _ _ n Hc), Hk.
  destruct (collatz_conjecture_return _ _ _ _ _ _ Hc Hrun)
    as (Hzero & Hiter & Hfirst).
  exists fuel, k. repeat split; [done | done | done |]. by apply Hzero.
Qed.

Lemma C5_verifier_halts_below_bound_witness :
  ∃ fuel k, collatz_conjecture fuel 1%positive {[1%positive := 27]}
              = Ret (k, {[1%positive := 27]}) ∧
            Nat.iter k collatz_next 27 = 1 ∧
            (∀ j, (j < k)%nat → Nat.iter j collatz_next 27 ≠ 1) ∧
            (27 = 1 → k = O).
Proof.
  apply (C5_verifier_halts_below_bound verified_bound 27 1%positive
           {[1%positive := 27]}).
  - apply reaches_one_below_verified_bound.
  - unfold verified_bound. lia.
  - apply lookup_singleton_eq.
Defined.

(** ** The worker *)


Lemma to_uint_small (i : Z) : 0 ≤ i < 2 ^ UINT_BITS → to_uint i = i.
Proof. intros Hi. unfold to_uint. by apply Z.mod_small. Qed.

Lemma to_uint_range (i : Z) : 0 ≤ to_uint i < 2 ^ UINT_BITS.
Proof. unfold to_uint, UINT_BITS. apply Z.mod_pos_bound. lia. Qed.

Lemma mpz_add_ui_self (p : loc) (n v : Z) (h : heap) :
  h !! p = Some v → mpz_add_ui p p n h = Ret (<[p := v + n]> h).
Proof. intros Hp. unfold mpz_add_ui. by rewrite (mpz_read_Some _ _ _ Hp). Qed.


Lemma thread_loop_unfold (vfuel fuel : nat) (p : loc) (c i : Z) (h : heap) :
  thread_loop vfuel (S fuel) p c i h =
    if i <? c then
      v ← mpz_read p h;
      '(_, h1) ← collatz_conjecture vfuel p h;
      h2 ← mpz_add_ui p p 1 h1;
      '(log, h3) ← thread_loop vfuel fuel p c (to_uint (i + 1)) h2;
      Ret (v :: log, h3)
    else Ret ([], h).
Proof. reflexivity. Qed.


(** With [count ≥ 2^32] the test [i < iterations_per_thread] of line 46
    holds for every [unsigned i]: the loop has no exit. *)
Lemma thread_loop_count_wraps (vfuel fuel : nat) (p : loc) (c i : Z)
    (h : heap) :
  2 ^ UINT_BITS ≤ c → 0 ≤ i < 2 ^ UINT_BITS →
  ¬ returns (thread_loop vfuel fuel p c i h).
Proof.
  intros Hc. revert i h. induction fuel as [| fuel IH]; intros i h Hi [r Hr].
  - discriminate.
  - rewrite thread_loop_unfold in Hr.
    replace (i <? c) with true in Hr by (symmetry; lia).
    destruct (mpz_read p h) as [v| |]; [| done ..]. cbn in Hr.
    destruct (collatz_conjecture vfuel p h) as [[k h1]| |]; [| done ..].
    cbn in Hr. destruct (mpz_add_ui p p 1 h1) as [h2| |]; [| done ..].
    cbn in Hr.
    destruct (thread_loop vfuel fuel p c (to_uint (i + 1)) h2) as [[l h3]| |]
      eqn:Hrec; [| done ..].
    apply (IH (to_uint (i + 1)) h2 (to_uint_range _)). by eexists.
Qed.





Lemma worker_step_call (vfuel : nat) (p : loc) (c i : Z) (l : list Z)
    (h : heap) :
  worker_step vfuel (Worker p c i WCall l) h =
    if i <? c then
      v ← mpz_read p h;
      '(_, h1) ← collatz_conjecture vfuel p h;
      Ret (Worker p c i WIncr (l ++ [v]), h1)
    else Ret (Worker p c i WDone l, h).
Proof. reflexivity. Qed.

Lemma worker_step_incr (vfuel : nat) (p : loc) (c i : Z) (l : list Z)
    (h : heap) :
  worker_step vfuel (Worker p c i WIncr l) h =
    h1 ← mpz_add_ui p p 1 h; Ret (Worker p c (to_uint (i + 1)) WCall l, h1).
Proof. reflexivity. Qed.

(** A thread that is alone on its cell runs [thread_procedure]. *)
Lemma worker_run_thread_loop (vfuel fuel : nat) (p : loc) (c i : Z)
    (h h' : heap) (log0 log : list Z) :
  thread_loop vfuel fuel p c i h = Ret (log, h') →
  ∃ n i',
    worker_run vfuel n (Worker p c i WCall log0) h
      = Ret (Worker p c i' WDone (log0 ++ log), h').
Proof.
  revert i h log0 log. induction fuel as [| fuel IH]; intros i h log0 log;
    [done |].
  rewrite thread_loop_unfold. destruct (i <? c) eqn:Hic.
  - destruct (mpz_read p h) as [v| |] eqn:Hv; cbn [mbind result_bind];
      [| done ..].
    destruct (collatz_conjecture vfuel p h) as [[k h1]| |] eqn:Hcall;
      cbn [mbind result_bind]; [| done ..].
    destruct (mpz_add_ui p p 1 h1) as [h2| |] eqn:Hadd;
      cbn [mbind result_bind]; [| done ..].
    destruct (thread_loop vfuel fuel p c (to_uint (i + 1)) h2)
      as [[log' h3]| |] eqn:Hrec; cbn [mbind result_bind]; [| done ..].
    intros [= <- <-].
    destruct (IH _ _ (log0 ++ [v]) _ Hrec) as (n & i' & Hn).
    exists (S (S n)), i'. cbn [worker_run].
    rewrite worker_step_call, Hic, Hv. cbn [mbind result_bind].
    rewrite Hcall. cbn [mbind result_bind].
    rewrite worker_step_incr, Hadd. cbn [mbind result_bind].
    rewrite Hn. by rewrite <- app_assoc.
  - intros [= <- <-]. exists 1%nat, i. cbn [worker_run].
    rewrite worker_step_call, Hic. cbn [mbind result_bind].
    by rewrite app_nil_r.
Qed.

(** ** Reading the configuration *)

Lemma is_digit_value (c : ascii) : is_digit c = true → 0 ≤ digit_value c ≤ 9.
Proof. unfold is_digit, digit_value. lia. Qed.

Lemma digits_prefix_nonneg (s : string) (acc : Z) :
  0 ≤ acc → 0 ≤ digits_prefix s acc.
Proof.
  revert acc. induction s as [| c r IH]; intros acc Hacc; cbn; [done |].
  destruct (is_digit c) eqn:Hd; [| done].
  apply IH. pose proof (is_digit_value c Hd). lia.
Qed.

Lemma to_uint64_range (x : Z) : 0 ≤ to_uint64 x < 2 ^ 64.
Proof. unfold to_uint64. apply Z.mod_pos_bound. lia. Qed.

(** What [strtoull] returns is an [unsigned long long]. *)
Lemma strtoull_range (s : string) : 0 ≤ strtoull s ≤ ULLONG_MAX.
Proof.
  unfold strtoull.
  destruct (match skip_space s with
            | String c r =>
                if char_code c =? 45 then (true, r)
                else if char_code c =? 43 then (false, r)
                else (false, skip_space s)
            | EmptyString => (false, skip_space s)
            end) as [neg s2].
  pose proof (digits_prefix_nonneg s2 0 ltac:(lia)) as Hv.
  destruct (Z.ltb_spec ULLONG_MAX (digits_prefix s2 0)).
  - unfold ULLONG_MAX. lia.
  - destruct neg; [| lia].
    pose proof (to_uint64_range (- digits_prefix s2 0)).
    unfold ULLONG_MAX. lia.
Qed.

Lemma get_int64_reject (input : string) (rest : list string) :
  is_numeric input && negb (strtoull (c_str input) =? ULLONG_MAX)
    && (0 <? strtoull (c_str input)) = false →
  get_int64 (input :: rest) = reprompted (get_int64 rest).
Proof. intros Hrej. cbn [get_int64]. by rewrite Hrej. Qed.

Lemma get_int64_valid (stdin rest : list string) (r : Z) (n : nat) :
  get_int64 stdin = Some (r, n, rest) →
  1 ≤ r ≤ 2 ^ 64 - 2.
Proof.
  revert n. induction stdin as [| input stdin IH]; intros n; [done |].
  cbn [get_int64].
  destruct (is_numeric input && negb (strtoull (c_str input) =? ULLONG_MAX)
            && (0 <? strtoull (c_str input))) eqn:Hok.
  - intros [= <- _ _].
    apply andb_prop in Hok as [Hok Hpos]. apply andb_prop in Hok as [_ Hmax].
    pose proof (strtoull_range (c_str input)).
    apply negb_true_iff, Z.eqb_neq in Hmax. unfold ULLONG_MAX in *. lia.
  - unfold reprompted. destruct (get_int64 stdin) as [[[r' n'] rest'] |];
      [| done].
    cbn. intros [= <- _ <-]. by apply (IH n').
Qed.

Lemma get_start_valid (stdin rest : list string) (h h' : heap) (n : nat) :
  get_start stdin h = Some (h', n, rest) →
  ∃ s, 0 < s ∧ h' !! batch_start_number = Some s
       ∧ ∀ l, l ≠ batch_start_number → h' !! l = h !! l.
Proof.
  revert h n. induction stdin as [| input stdin IH]; intros h n; [done |].
  cbn [get_start]. unfold mpz_cmp_ui, mpz_init_set_str.
  rewrite (mpz_read_Some _ _ (default 0 (mpz_set_str (c_str input))))
    by apply lookup_insert_eq.
  cbn [mbind result_bind].
  set (v := default 0 (mpz_set_str (c_str input))).
  assert (Hrec : reprompted (get_start stdin (<[batch_start_number := v]> h))
                 = Some (h', n, rest) →
                 ∃ s, 0 < s ∧ h' !! batch_start_number = Some s
                      ∧ ∀ l, l ≠ batch_start_number → h' !! l = h !! l).
  { unfold reprompted.
    destruct (get_start stdin _) as [[[h1 n1] rest1] |] eqn:Hg; [| done].
    cbn. intros [= <- _ <-].
    destruct (IH _ _ Hg) as (s & Hs & Hl & Hother). exists s.
    repeat split; [done .. |]. intros l Hne.
    by rewrite Hother, lookup_insert_ne. }
  destruct (v ?= 0) eqn:Hcmp; [exact Hrec | exact Hrec |].
  intros [= <- _ _]. exists v. repeat split.
  - by apply Z.compare_gt_iff in Hcmp.
  - apply lookup_insert_eq.
  - intros l Hne. by rewrite lookup_insert_ne.
Qed.

Lemma get_start_reject (input : string) (rest : list string) (h : heap) :
  default 0 (mpz_set_str (c_str input)) ≤ 0 →
  get_start (input :: rest) h =
    reprompted
      (get_start rest (mpz_init_set_str batch_start_number (c_str input) h)).
Proof.
  intros Hle. cbn [get_start]. unfold mpz_cmp_ui.
  rewrite (mpz_read_Some _ _ (default 0 (mpz_set_str (c_str input))))
    by apply lookup_insert_eq.
  cbn [mbind result_bind].
  destruct (default 0 (mpz_set_str (c_str input)) ?= 0) eqn:Hcmp; [done .. |].
  apply Z.compare_gt_iff in Hcmp. lia.
Qed.

(** The store on entry to the batch loop holds the start number read, in
    [batch_start_number] and in [batch_end_number]. *)
Lemma read_config_heap (stdin rest : list string) (cf : settings) (h : heap) :
  read_config stdin = Some (cf, h, rest) →
  ∃ s, 0 < s ∧ h = initial_heap s.
Proof.
  unfold read_config.
  destruct (get_int64 stdin) as [[[tc n1] in1] |]; [| done]. cbn.
  destruct (get_int64 in1) as [[[ipt n2] in2] |]; [| done]. cbn.
  destruct (get_start in2 ∅) as [[[h1 n3] in3] |] eqn:H3; [| done]. cbn.
  destruct (get_start_valid _ _ _ _ _ H3) as (s & Hs & Hl & Hother).
  unfold mpz_init_set. rewrite (mpz_read_Some _ _ _ Hl). cbn.
  intros [= _ <- _]. exists s. split; [done |].
  unfold initial_heap. f_equal. apply map_eq. intros l.
  destruct (decide (l = batch_start_number)) as [-> | Hne].
  - by rewrite lookup_insert_eq.
  - by rewrite lookup_insert_ne, Hother.
Qed.

(** C9: when the input routines return, [thread_count ≥ 1],
    [iterations_per_thread ≥ 1] and the start number is positive; a line
    for [get_int64] that is not all digits or that reads as zero, and a
    line for the start number that [mpz_set_str] refuses or that reads as
    a number [≤ 0], is answered by another round of the prompt. *)
Theorem C9_configuration_valid :
  (∀ stdin cf h rest,
     read_config stdin = Some (cf, h, rest) →
     1 ≤ thread_count cf ∧ 1 ≤ iterations_per_thread cf ∧
     ∃ s, 0 < s ∧ h !! batch_start_number = Some s) ∧
  (∀ input rest,
     is_numeric input = false ∨ strtoull (c_str input) = 0 →
     get_int64 (input :: rest) = reprompted (get_int64 rest)) ∧
  (∀ input rest h,
     match mpz_set_str (c_str input) with
     | Some v => v ≤ 0
     | None => True
     end →
     get_start (input :: rest) h =
       reprompted
         (get_start rest
            (mpz_init_set_str batch_start_number (c_str input) h))).
Proof.
  repeat split.
  - unfold read_config in H.
    destruct (get_int64 stdin) as [[[tc n1] in1] |] eqn:H1; [| done].
    cbn in H. destruct (get_int64 in1) as [[[ipt n2] in2] |] eqn:H2; [| done].
    cbn in H. destruct (get_start in2 ∅) as [[[h1 n3] in3] |]; [| done].
    cbn in H. destruct (mpz_init_set _ _ h1); [| done ..].
    injection H as <- _ _. cbn. apply (get_int64_valid _ _ _ _ H1).
  - unfold read_config in H.
    destruct (get_int64 stdin) as [[[tc n1] in1] |] eqn:H1; [| done].
    cbn in H. destruct (get_int64 in1) as [[[ipt n2] in2] |] eqn:H2; [| done].
    cbn in H. destruct (get_start in2 ∅) as [[[h1 n3] in3] |]; [| done].
    cbn in H. destruct (mpz_init_set _ _ h1); [| done ..].
    injection H as <- _ _. cbn. apply (get_int64_valid _ _ _ _ H2).
  - unfold read_config in H.
    destruct (get_int64 stdin) as [[[tc n1] in1] |] eqn:H1; [| done].
    cbn in H. destruct (get_int64 in1) as [[[ipt n2] in2] |] eqn:H2; [| done].
    cbn in H.
    destruct (get_start in2 ∅) as [[[h1 n3] in3] |] eqn:H3; [| done].
    cbn in H. destruct (get_start_valid _ _ _ _ _ H3) as (s & Hs & Hl & _).
    unfold mpz_init_set in H. rewrite (mpz_read_Some _ _ _ Hl) in H.
    cbn in H. injection H as _ <- _. exists s. split; [done |].
    by rewrite lookup_insert_ne.
  - intros input rest [Hnum | Hzero]; apply get_int64_reject.
    + by rewrite Hnum.
    + rewrite Hzero. by rewrite andb_false_r.
  - intros input rest h Hbad. apply get_start_reject.
    destruct (mpz_set_str (c_str input)); cbn; [done | lia].
Qed.

Lemma C9_configuration_valid_witness :
  (1 ≤ 2 ∧ 1 ≤ 3 ∧ ∃ s, 0 < s ∧ initial_heap 10 !! batch_start_number = Some s)
  ∧ get_int64 ["x7"; "0"; "5"] = Some (5, 3%nat, [])
  ∧ get_start ["-4"; "nine"; "0"; "9"] ∅ = Some ({[batch_start_number := 9]}, 4%nat, []).
Proof.
  destruct C9_configuration_valid as (Hvalid & Hint & Hstart).
  split; [| split].
  - apply (Hvalid ["abc"; "0"; "2"; "18446744073709551615"; "3"; "-4"; " 1 0"]
             (Settings 2 3) (initial_heap 10) []).
    vm_compute. reflexivity.
  - rewrite (Hint "x7" ["0"; "5"]) by (left; reflexivity).
    rewrite (Hint "0" ["5"]) by (right; reflexivity).
    vm_compute. reflexivity.
  - rewrite (Hstart "-4" ["nine"; "0"; "9"] ∅) by (vm_compute; done).
    rewrite (Hstart "nine" ["0"; "9"]) by (vm_compute; done).
    rewrite (Hstart "0" ["9"]) by (vm_compute; done).
    vm_compute. reflexivity.
Defined.

(** C10: what [get_int64] returns lies in [[1, 2^64 - 2]]; the line
    ["18446744073709551615"], the digits of [ULLONG_MAX], is answered by
    another round of the prompt, as a malformed line is. *)
Theorem C10_get_int64_range :
  (∀ stdin r n rest,
     get_int64 stdin = Some (r, n, rest) → 1 ≤ r ≤ 2 ^ 64 - 2) ∧
  (∀ rest,
     get_int64 ("18446744073709551615" :: rest) = reprompted (get_int64 rest)) ∧
  strtoull "18446744073709551615" = 2 ^ 64 - 1.
Proof.
  split; [| split].
  - intros stdin r n rest. apply get_int64_valid.
  - intros rest. apply get_int64_reject. vm_compute. reflexivity.
  - vm_compute. reflexivity.
Qed.

Lemma C10_get_int64_range_witness :
  get_int64 ["18446744073709551615"; "18446744073709551614"]
    = Some (2 ^ 64 - 2, 2%nat, []) ∧
  1 ≤ 2 ^ 64 - 2 ≤ 2 ^ 64 - 2.
Proof.
  assert (Hrun : get_int64 ["18446744073709551615"; "18446744073709551614"]
                 = Some (2 ^ 64 - 2, 2%nat, []))
    by (vm_compute; reflexivity).
  split; [exact Hrun |].
  exact (proj1 C10_get_int64_range _ _ _ _ Hrun).
Defined.

(** ** The batch loop *)

Lemma to_ulong_small (x : Z) : 0 ≤ x < 2 ^ 64 → to_ulong x = x.
Proof. intros Hx. unfold to_ulong, ULONG_BITS. by apply Z.mod_small. Qed.

Lemma batch_size_range (cf : settings) : 0 ≤ batch_size cf < 2 ^ 64.
Proof. apply to_uint64_range. Qed.

(** Without overflow the batch size is the product. *)
Lemma batch_size_exact (cf : settings) :
  0 ≤ thread_count cf * iterations_per_thread cf < 2 ^ 64 →
  batch_size cf = thread_count cf * iterations_per_thread cf.
Proof. intros Hp. unfold batch_size, to_uint64. by apply Z.mod_small. Qed.

Lemma run_app (vfuel : nat) (cf : settings) (s1 s2 : list nat) (c : config) :
  run vfuel cf (s1 ++ s2) c = c' ← run vfuel cf s1 c; run vfuel cf s2 c'.
Proof.
  revert c. induction s1 as [| t s1 IH]; intros c; [done |].
  cbn [app run]. destruct (step vfuel cf t c); cbn; [apply IH | done ..].
Qed.

(** A worker writes the cell it was given the address of, and no other. *)
Lemma worker_step_frame (vfuel : nat) (w w' : worker) (h h' : heap) :
  worker_step vfuel w h = Ret (w', h') →
  w_ptr w' = w_ptr w ∧ ∀ l, l ≠ w_ptr w → h' !! l = h !! l.
Proof.
  unfold worker_step. destruct (w_pc w).
  - destruct (w_i w <? w_count w).
    + destruct (mpz_read (w_ptr w) h) as [v| |] eqn:Hv; [| done ..].
      apply mpz_read_Ret in Hv. cbn.
      rewrite (collatz_conjecture_steps _ _ _ v Hv).
      destruct (collatz_steps vfuel v); [| done]. cbn. by intros [= <- <-].
    + by intros [= <- <-].
  - unfold mpz_add_ui.
    destruct (mpz_read (w_ptr w) h) as [v| |]; [| done ..]. cbn.
    intros [= <- <-]. split; [done |].
    intros l Hne. by rewrite lookup_insert_ne.
  - by intros [= <- <-].
Qed.

(** The invariant [batch_inv] of a run from the start number [s0]. *)
Section batch_invariant.
Context (vfuel : nat) (cf : settings) (s0 : Z).

Lemma main_step_inv (c c' : config) :
  batch_inv cf s0 c → main_step cf c = Ret c' → batch_inv cf s0 c'.
Proof.
  intros [Hstart Hptr]. unfold main_step, batch_inv.
  destruct c as [h pc i ths n out].
  cbn [c_heap c_pc c_i c_threads c_batches c_out] in *. destruct pc.
  - unfold mpz_add_ui.
    destruct (mpz_read batch_end_number h) as [e| |]; [| done ..].
    cbn [mbind result_bind].
    rewrite (mpz_read_Some batch_start_number _
               (s0 + Z.of_nat n * batch_size cf))
      by (by rewrite lookup_insert_ne).
    cbn [mbind result_bind].
    rewrite (mpz_read_Some batch_end_number _ (e + to_ulong (batch_size cf)))
      by apply lookup_insert_eq.
    cbn [mbind result_bind]. intros [= <-].
    cbn [c_heap c_threads c_batches]. split; [| done].
    by rewrite lookup_insert_ne.
  - unfold mpz_init_set. rewrite (mpz_read_Some _ _ _ Hstart).
    cbn [mbind result_bind]. intros [= <-].
    cbn [c_heap c_threads c_batches]. split; [| constructor].
    by rewrite lookup_insert_ne.
  - destruct (i <? thread_count cf); intros [= <-];
      cbn [c_heap c_threads c_batches]; [| done].
    split; [done |]. apply Forall_app. split; [done |]. by repeat constructor.
  - unfold mpz_add_ui.
    destruct (mpz_read thread_start_number h) as [v| |]; [| done ..].
    cbn [mbind result_bind]. intros [= <-].
    cbn [c_heap c_threads c_batches]. split; [| done].
    by rewrite lookup_insert_ne.
  - intros [= <-]. cbn [c_heap c_threads c_batches]. split; [| done].
    unfold mpz_clear. by rewrite lookup_delete_ne.
  - destruct (forallb worker_done ths); intros [= <-];
      cbn [c_heap c_threads c_batches]; done.
  - rewrite (mpz_add_ui_self _ _ _ _ Hstart). cbn [mbind result_bind].
    intros [= <-]. cbn [c_heap c_threads c_batches].
    split; [| done]. rewrite lookup_insert_eq. f_equal.
    rewrite (to_ulong_small _ (batch_size_range cf)). lia.
Qed.

Lemma step_inv (tid : nat) (c c' : config) :
  batch_inv cf s0 c → step vfuel cf tid c = Ret c' → batch_inv cf s0 c'.
Proof.
  intros Hinv. destruct tid as [| k]; cbn [step]; [by apply main_step_inv |].
  destruct (c_threads c !! k) as [w |] eqn:Hk; [| by intros [= <-]].
  destruct (worker_step vfuel w (c_heap c)) as [[w' h']| |] eqn:Hw; [| done ..].
  cbn. intros [= <-]. destruct Hinv as [Hstart Hptr].
  destruct (worker_step_frame _ _ _ _ _ Hw) as [Hsame Hframe].
  pose proof (Forall_lookup_1 _ _ _ _ Hptr Hk) as Hw_ptr. cbn in Hw_ptr.
  unfold batch_inv. cbn. split.
  - rewrite Hframe; [done |]. by rewrite Hw_ptr.
  - apply Forall_insert; [done |]. cbn. congruence.
Qed.

Lemma run_inv (sched : list nat) (c c' : config) :
  batch_inv cf s0 c → run vfuel cf sched c = Ret c' → batch_inv cf s0 c'.
Proof.
  revert c. induction sched as [| tid sched IH]; intros c Hinv.
  - by intros [= <-].
  - cbn [run]. destruct (step vfuel cf tid c) as [c1| |] eqn:Hstep; [| done ..].
    cbn. apply IH. by apply (step_inv tid c).
Qed.

Lemma initial_inv :
  batch_inv cf s0 (initial_config (initial_heap s0)).
Proof.
  split; [| constructor]. cbn. unfold initial_heap.
  rewrite lookup_insert_ne by done. rewrite lookup_insert_eq. f_equal. lia.
Qed.

End batch_invariant.



(** *** What the workers receive *)

(** Every thread of every batch holds the address of the one cell
    [thread_start_number] of the main thread. *)
Lemma workers_share_cell (vfuel : nat) (cf : settings) (s0 : Z)
    (sched : list nat) (c : config) :
  run vfuel cf sched (initial_config (initial_heap s0)) = Ret c →
  Forall (λ w, w_ptr w = thread_start_number) (c_threads c).
Proof.
  intros Hrun.
  exact (proj2 (run_inv vfuel cf s0 sched _ c (initial_inv cf s0) Hrun)).
Qed.

(** Lookups in a store written as a chain of inserts over three distinct
    cells. *)
Ltac solve_lookup :=
  unfold initial_heap;
  repeat (rewrite lookup_insert_eq || rewrite lookup_insert_ne by done);
  done.

(** One statement of the main thread. *)
Ltac main_step_tac :=
  cbn [run step mbind result_bind]; unfold main_step;
  cbn [c_heap c_pc c_i c_threads c_batches c_out mbind result_bind].

Lemma main_steps_succ (n : nat) : main_steps (S n) = main_steps n ++ [O].
Proof.
  unfold main_steps. change (S n) with (1 + n)%nat.
  by rewrite Nat.add_comm, replicate_add.
Qed.

(** The arithmetic of the launch loop when no thread moves: at the [i]th
    launch the cell holds [s + i * iterations_per_thread]. *)
Lemma launch_offsets (vfuel : nat) (cf : settings) (s : Z) (i : nat) :
  Z.of_nat i < 2 ^ UINT_BITS →
  Z.of_nat i ≤ thread_count cf →
  0 ≤ iterations_per_thread cf < 2 ^ 64 →
  run vfuel cf (main_steps (2 + 2 * i)) (initial_config (initial_heap s)) =
    Ret (Config
           (<[thread_start_number :=
                s + Z.of_nat i * iterations_per_thread cf]>
              (<[batch_end_number := s + batch_size cf]> (initial_heap s)))
           PLaunch (Z.of_nat i)
           (replicate i (spawn thread_start_number (iterations_per_thread cf)))
           O [(s, s + batch_size cf)]).
Proof.
  intros Hi Hle Hipt. induction i as [| i IH].
  - unfold initial_config. cbn [main_steps replicate Nat.mul Nat.add].
    main_step_tac.
    rewrite (mpz_add_ui_self _ _ s) by solve_lookup.
    cbn [mbind result_bind].
    rewrite (mpz_read_Some batch_start_number _ s) by solve_lookup.
    cbn [mbind result_bind].
    rewrite (mpz_read_Some batch_end_number _ (s + to_ulong (batch_size cf)))
      by solve_lookup.
    main_step_tac. unfold mpz_init_set.
    rewrite (mpz_read_Some batch_start_number _ s) by solve_lookup.
    main_step_tac.
    rewrite (to_ulong_small _ (batch_size_range cf)).
    cbn [app]. do 3 f_equal. lia.
  - replace (2 + 2 * S i)%nat with (S (S (2 + 2 * i))) by lia.
    rewrite !main_steps_succ, <- app_assoc, run_app, IH by lia.
    cbn [app]. main_step_tac.
    replace (Z.of_nat i <? thread_count cf) with true by (symmetry; lia).
    main_step_tac.
    rewrite (mpz_add_ui_self _ _ (s + Z.of_nat i * iterations_per_thread cf))
      by solve_lookup.
    main_step_tac. rewrite insert_insert_eq.
    rewrite to_uint_small by lia. rewrite to_ulong_small by done.
    f_equal. f_equal.
    + f_equal. lia.
    + lia.
    + change (S i) with (1 + i)%nat. by rewrite Nat.add_comm, replicate_add.
Qed.

(** With [thread_count ≥ 2^32] the test [i < thread_count] of line 126 holds
    for every [unsigned i]: the first launch loop has no exit. *)
Lemma launch_loop_wraps (vfuel : nat) (cf : settings) (sched : list nat)
    (c c' : config) :
  2 ^ UINT_BITS ≤ thread_count cf →
  in_first_launch_loop c →
  run vfuel cf sched c = Ret c' →
  in_first_launch_loop c'.
Proof.
  intros Htc. revert c. induction sched as [| tid sched IH]; intros c Hin.
  - by intros [= <-].
  - cbn [run]. destruct (step vfuel cf tid c) as [c1| |] eqn:Hstep; [| done ..].
    cbn [mbind result_bind]. apply IH. clear IH.
    destruct Hin as (Hb & Hi & Hpc). destruct tid as [| k]; cbn [step] in Hstep.
    + unfold main_step in Hstep. destruct (c_pc c); try done.
      * destruct (mpz_add_ui _ _ _ _); cbn [mbind result_bind] in Hstep;
          [| discriminate ..].
        destruct (mpz_read batch_start_number _);
          cbn [mbind result_bind] in Hstep; [| discriminate ..].
        destruct (mpz_read batch_end_number _);
          cbn [mbind result_bind] in Hstep; [| discriminate ..].
        injection Hstep as <-. by split; [| split].
      * destruct (mpz_init_set _ _ _); cbn [mbind result_bind] in Hstep;
          [| discriminate ..].
        injection Hstep as <-.
        split; [done | split; [cbn; unfold UINT_BITS; lia | done]].
      * replace (c_i c <? thread_count cf) with true in Hstep
          by (symmetry; lia).
        injection Hstep as <-. by split; [| split].
      * destruct (mpz_add_ui _ _ _ _); cbn [mbind result_bind] in Hstep;
          [| discriminate ..].
        injection Hstep as <-.
        split; [done | split; [apply to_uint_range | done]].
    + destruct (c_threads c !! k); [| by injection Hstep as <-].
      destruct (worker_step _ _ _) as [[w' h']| |];
        cbn [mbind result_bind] in Hstep; [| discriminate ..].
      injection Hstep as <-. by split; [| split].
Qed.


(** *** No schedule yields the partition *)

Lemma worker_step_cases (vfuel : nat) (w w' : worker) (h h' : heap) :
  worker_step vfuel w h = Ret (w', h') →
  (∃ v, w_pc w = WCall ∧ h !! w_ptr w = Some v ∧ h' = h ∧
        w_pc w' = WIncr ∧ w_log w' = w_log w ++ [v]) ∨
  (∃ v, w_pc w = WIncr ∧ h !! w_ptr w = Some v ∧
        h' = <[w_ptr w := v + 1]> h ∧ w_pc w' = WCall ∧ w_log w' = w_log w) ∨
  (h' = h ∧ w_log w' = w_log w ∧ incs_done w' = incs_done w).
Proof.
  unfold worker_step. destruct (w_pc w) eqn:Hpc.
  - destruct (w_i w <? w_count w).
    + destruct (mpz_read (w_ptr w) h) as [v| |] eqn:Hv;
        cbn [mbind result_bind]; [| done ..].
      apply mpz_read_Ret in Hv.
      rewrite (collatz_conjecture_steps _ _ _ v Hv).
      destruct (collatz_steps vfuel v); cbn [mbind result_bind]; [| done].
      intros [= <- <-]. left. by exists v.
    + intros [= <- <-]. right. right. unfold incs_done. cbn. by rewrite Hpc.
  - unfold mpz_add_ui.
    destruct (mpz_read (w_ptr w) h) as [v| |] eqn:Hv;
      cbn [mbind result_bind]; [| done ..].
    apply mpz_read_Ret in Hv. intros [= <- <-]. right. left. by exists v.
  - intros [= <- <-]. by right; right.
Qed.

Lemma adds_done_threads (c : config) :
  (2 ≤ length (c_threads c))%nat → 1 ≤ adds_done c.
Proof. unfold adds_done. destruct (c_pc c); lia. Qed.

Lemma first_incs_nonneg (c : config) : 0 ≤ first_incs c.
Proof. unfold first_incs. destruct (c_threads c !! O); lia. Qed.

Lemma verified_Some (c : config) (j pos : nat) (a : Z) :
  verified c j pos = Some a →
  ∃ w, c_threads c !! j = Some w ∧ w_log w !! pos = Some a.
Proof.
  unfold verified. destruct (c_threads c !! j) as [w |]; [| done].
  cbn. intros Ha. by exists w.
Qed.

Lemma verified_with_thread (c : config) (k : nat) (w w' : worker) (h' : heap)
    (j pos : nat) :
  c_threads c !! k = Some w →
  verified (with_thread c k w' h') j pos =
    if decide (j = k) then w_log w' !! pos else verified c j pos.
Proof.
  intros Hk. unfold verified, with_thread. cbn [c_threads].
  destruct (decide (j = k)) as [-> | Hne].
  - rewrite list_lookup_insert_eq; [done |]. by apply lookup_lt_Some in Hk.
  - by rewrite list_lookup_insert_ne.
Qed.

Lemma first_incs_with_thread (c : config) (k : nat) (w w' : worker)
    (h' : heap) :
  c_threads c !! k = Some w →
  first_incs (with_thread c k w' h') =
    if decide (k = O) then Z.of_nat (incs_done w') else first_incs c.
Proof.
  intros Hk. unfold first_incs, with_thread. cbn [c_threads].
  destruct (decide (k = O)) as [-> | Hne].
  - rewrite list_lookup_insert_eq; [done |]. by apply lookup_lt_Some in Hk.
  - by rewrite list_lookup_insert_ne.
Qed.

Lemma adds_done_with_thread (c : config) (k : nat) (w' : worker) (h' : heap) :
  adds_done (with_thread c k w' h') = adds_done c.
Proof. unfold adds_done, with_thread. cbn. by rewrite length_insert. Qed.

(** The invariant [first_batch_inv] of a run from the start number [s]. *)
Section first_batch.
Context (vfuel : nat) (cf : settings) (s : Z).

Lemma worker_step_first_batch (c : config) (k : nat) (w w' : worker)
    (h' : heap) :
  w_ptr w = thread_start_number →
  first_batch_inv cf s c →
  c_threads c !! k = Some w →
  worker_step vfuel w (c_heap c) = Ret (w', h') →
  first_batch_inv cf s (with_thread c k w' h').
Proof.
  intros Hptr Hinv Hk Hstep Hb. destruct (Hinv Hb) as [Hcell Hlogs].
  pose proof (to_uint64_range (iterations_per_thread cf)) as Hipt.
  change (to_uint64 (iterations_per_thread cf))
    with (to_ulong (iterations_per_thread cf)) in Hipt.
  pose proof (first_incs_nonneg c) as Hincs.
  assert (Hfirst : first_incs c =
                   if decide (k = O) then Z.of_nat (incs_done w)
                   else first_incs c).
  { destruct (decide (k = O)) as [-> |]; [| done].
    unfold first_incs. by rewrite Hk. }
  destruct (worker_step_cases _ _ _ _ _ Hstep)
    as [(v & Hpc & Hv & -> & Hpc' & Hlog') |
        [(v & Hpc & Hv & -> & Hpc' & Hlog') | (-> & Hlog' & Hincs')]];
    rewrite ?Hptr in *.
  - (* the call of line 48 *)
    assert (Hsame : incs_done w' = incs_done w).
    { unfold incs_done. rewrite Hpc, Hpc', Hlog', length_app. cbn. lia. }
    split.
    + intros v'. cbn [with_thread c_heap].
      rewrite adds_done_with_thread, (first_incs_with_thread _ _ w) by done.
      rewrite Hsame, <- Hfirst. apply Hcell.
    + intros a b. rewrite !(verified_with_thread _ _ w) by done.
      specialize (Hcell v Hv). rewrite Hlog'.
      destruct k as [| [| k]]; repeat case_decide; try lia.
      * (* the first thread *)
        intros Ha Hb1. destruct (w_log w !! 1%nat) as [a0 |] eqn:Ha0.
        -- rewrite (lookup_app_l_Some _ _ _ _ Ha0) in Ha. injection Ha as <-.
           apply (Hlogs a0 b); [| done]. unfold verified. by rewrite Hk.
        -- right. apply lookup_ge_None in Ha0.
           destruct (verified_Some _ _ _ _ Hb1) as (w1 & Hw1 & _).
           apply lookup_lt_Some in Hw1.
           pose proof (adds_done_threads c ltac:(lia)) as Hadds.
           rewrite lookup_app_r in Ha by lia.
           apply list_lookup_singleton_Some in Ha as [_ <-]. nia.
      * (* the second thread *)
        intros Ha. destruct (w_log w) as [| b0 l] eqn:Hl.
        -- cbn. intros [= <-]. left.
           destruct (verified_Some _ _ _ _ Ha) as (w0 & Hw0 & Ha0).
           apply lookup_lt_Some in Hk.
           pose proof (adds_done_threads c ltac:(lia)) as Hadds.
           assert (1 ≤ first_incs c).
           { unfold first_incs. rewrite Hw0. unfold incs_done.
             apply lookup_lt_Some in Ha0. destruct (w_pc w0); lia. }
           nia.
        -- cbn. intros [= <-]. apply (Hlogs a b0 Ha).
           unfold verified. rewrite Hk. cbn. by rewrite Hl.
      * apply Hlogs.
  - (* the increment of line 49 *)
    assert (Hle : (incs_done w' ≤ S (incs_done w))%nat).
    { unfold incs_done. rewrite Hpc, Hpc', Hlog'. lia. }
    split.
    + intros v'. cbn [with_thread c_heap]. rewrite lookup_insert_eq.
      intros [= <-].
      rewrite adds_done_with_thread, (first_incs_with_thread _ _ w) by done.
      specialize (Hcell v Hv). destruct (decide (k = O)); lia.
    + intros a b. rewrite !(verified_with_thread _ _ w) by done.
      rewrite Hlog'. intros Ha Hb1. apply (Hlogs a b).
      * destruct (decide (O = k)) as [<- |]; [| done].
        unfold verified. by rewrite Hk.
      * destruct (decide (1%nat = k)) as [<- |]; [| done].
        unfold verified. by rewrite Hk.
  - (* the loop exit, or a thread that has returned *)
    split.
    + intros v'. cbn [with_thread c_heap].
      rewrite adds_done_with_thread, (first_incs_with_thread _ _ w) by done.
      rewrite Hincs', <- Hfirst. apply Hcell.
    + intros a b. rewrite !(verified_with_thread _ _ w) by done.
      rewrite Hlog'. intros Ha Hb1. apply (Hlogs a b).
      * destruct (decide (O = k)) as [<- |]; [| done].
        unfold verified. by rewrite Hk.
      * destruct (decide (1%nat = k)) as [<- |]; [| done].
        unfold verified. by rewrite Hk.
Qed.

Lemma verified_launch (c c' : config) (w : worker) (j pos : nat) (a : Z) :
  w_log w = [] →
  c_threads c' = c_threads c ++ [w] →
  verified c' j pos = Some a →
  verified c j pos = Some a.
Proof.
  intros Hw Hths. unfold verified. rewrite Hths.
  destruct (decide (j < length (c_threads c))%nat) as [Hlt | Hge].
  - by rewrite lookup_app_l.
  - rewrite lookup_app_r by lia.
    destruct (j - length (c_threads c))%nat; cbn; [by rewrite Hw | done].
Qed.

Lemma first_incs_launch (c c' : config) (w : worker) :
  w_log w = [] →
  c_threads c' = c_threads c ++ [w] →
  first_incs c' = first_incs c.
Proof.
  intros Hw Hths. unfold first_incs. rewrite Hths.
  destruct (c_threads c) as [| w0 ths]; cbn; [| done].
  unfold incs_done. rewrite Hw. cbn. done.
Qed.

Lemma main_step_first_batch (c c' : config) :
  batch_inv cf s c →
  first_batch_inv cf s c →
  main_step cf c = Ret c' →
  first_batch_inv cf s c'.
Proof.
  intros [Hstart _] Hinv Hstep Hb'.
  assert (Hb : c_batches c = O).
  { unfold main_step in Hstep.
    destruct (c_pc c); cbn [mbind result_bind] in Hstep;
      repeat match type of Hstep with
             | context [if ?b then _ else _] => destruct b
             | context [mbind _ ?r] =>
                 destruct r; cbn [mbind result_bind] in Hstep
             end;
      try discriminate; injection Hstep as <-; cbn in Hb'; done. }
  destruct (Hinv Hb) as [Hcell Hlogs]. rewrite Hb in Hstart.
  unfold main_step in Hstep. destruct c as [h pc i ths n out].
  cbn [c_heap c_pc c_i c_threads c_batches c_out] in *.
  destruct pc.
  - (* line 116 *)
    destruct (mpz_add_ui _ _ _ h) as [h1| |] eqn:Hadd;
      cbn [mbind result_bind] in Hstep; [| discriminate ..].
    destruct (mpz_read batch_start_number h1);
      cbn [mbind result_bind] in Hstep; [| discriminate ..].
    destruct (mpz_read batch_end_number h1);
      cbn [mbind result_bind] in Hstep; [| discriminate ..].
    injection Hstep as <-. unfold mpz_add_ui in Hadd.
    destruct (mpz_read batch_end_number h);
      cbn [mbind result_bind] in Hadd; [| discriminate ..].
    injection Hadd as <-. split; [| exact Hlogs].
    intros v. cbn [c_heap]. rewrite lookup_insert_ne by done. apply Hcell.
  - (* line 124 *)
    unfold mpz_init_set in Hstep. rewrite (mpz_read_Some _ _ _ Hstart) in Hstep.
    cbn [mbind result_bind] in Hstep. injection Hstep as <-. split.
    + intros v. cbn [c_heap]. rewrite lookup_insert_eq. intros [= <-].
      unfold adds_done, first_incs. cbn. lia.
    + intros a b. unfold verified. cbn. done.
  - (* lines 126-129 *)
    destruct (i <? thread_count cf); injection Hstep as <-.
    + split.
      * intros v Hv.
        rewrite (first_incs_launch (Config h PLaunch i ths n out) _
                   (spawn thread_start_number
                      (to_ulong (iterations_per_thread cf)))) by done.
        specialize (Hcell v Hv). unfold adds_done in *.
        cbn [c_pc c_threads] in *. rewrite length_app. cbn [length]. lia.
      * intros a b Ha Hb1. apply (Hlogs a b).
        -- refine (verified_launch (Config h PLaunch i ths n out) _
                    (spawn thread_start_number
                       (to_ulong (iterations_per_thread cf)))
                    _ _ _ _ _ Ha); reflexivity.
        -- refine (verified_launch (Config h PLaunch i ths n out) _
                    (spawn thread_start_number
                       (to_ulong (iterations_per_thread cf)))
                    _ _ _ _ _ Hb1); reflexivity.
    + split; [| exact Hlogs]. exact Hcell.
  - (* line 131 *)
    unfold mpz_add_ui in Hstep.
    destruct (mpz_read thread_start_number h) as [v| |] eqn:Hv;
      cbn [mbind result_bind] in Hstep; [| discriminate ..].
    apply mpz_read_Ret in Hv. injection Hstep as <-. split; [| exact Hlogs].
    intros v'. cbn [c_heap]. rewrite lookup_insert_eq. intros [= <-].
    specialize (Hcell v Hv). unfold adds_done, first_incs in *.
    cbn [c_pc c_threads] in *. lia.
  - (* line 134 *)
    injection Hstep as <-. split; [| exact Hlogs].
    intros v. cbn [c_heap]. unfold mpz_clear. by rewrite lookup_delete_eq.
  - (* line 137 *)
    destruct (forallb worker_done ths); injection Hstep as <-;
      (split; [exact Hcell | exact Hlogs]).
  - (* line 144 *)
    destruct (mpz_add_ui _ _ _ h); cbn [mbind result_bind] in Hstep;
      [| discriminate ..].
    injection Hstep as <-. discriminate.
Qed.

Lemma step_first_batch (tid : nat) (c c' : config) :
  batch_inv cf s c →
  first_batch_inv cf s c →
  step vfuel cf tid c = Ret c' →
  first_batch_inv cf s c'.
Proof.
  intros Hinv Hfirst. destruct tid as [| k]; cbn [step].
  - by apply main_step_first_batch.
  - destruct (c_threads c !! k) as [w |] eqn:Hk; [| by intros [= <-]].
    destruct (worker_step vfuel w (c_heap c)) as [[w' h']| |] eqn:Hw;
      cbn [mbind result_bind]; [| done ..].
    intros [= <-].
    apply (worker_step_first_batch c k w w' h'); try done.
    exact (Forall_lookup_1 _ _ _ _ (proj2 Hinv) Hk).
Qed.

Lemma run_first_batch (sched : list nat) (c c' : config) :
  batch_inv cf s c →
  first_batch_inv cf s c →
  run vfuel cf sched c = Ret c' →
  first_batch_inv cf s c'.
Proof.
  revert c. induction sched as [| tid sched IH]; intros c Hinv Hfirst.
  - by intros [= <-].
  - cbn [run]. destruct (step vfuel cf tid c) as [c1| |] eqn:Hstep;
      cbn [mbind result_bind]; [| done ..].
    apply IH.
    + by apply (step_inv vfuel cf s tid c).
    + by apply (step_first_batch tid c).
Qed.

Lemma initial_first_batch :
  first_batch_inv cf s (initial_config (initial_heap s)).
Proof.
  intros _. split.
  - intros v. unfold initial_config, initial_heap. cbn [c_heap].
    by rewrite !lookup_insert_ne.
  - intros a b. unfold verified. cbn. done.
Qed.

End first_batch.

(** Under no schedule does the first batch go the way of the partition:
    with [iterations_per_thread ≥ 2], the first thread does not verify
    [s + 1] second while the second thread verifies
    [s + iterations_per_thread] first. *)
Lemma no_schedule_partitions (vfuel : nat) (cf : settings) (s : Z)
    (sched : list nat) (c : config) :
  2 ≤ iterations_per_thread cf < 2 ^ 64 →
  run vfuel cf sched (initial_config (initial_heap s)) = Ret c →
  c_batches c = O →
  ¬ (verified c 0 1 = Some (s + 1) ∧
     verified c 1 0 = Some (s + iterations_per_thread cf)).
Proof.
  intros Hipt Hrun Hb [Ha Hb1].
  destruct (run_first_batch vfuel cf s sched _ c (initial_inv cf s)
              (initial_first_batch cf s) Hrun Hb) as [_ Hlogs].
  specialize (Hlogs _ _ Ha Hb1). rewrite to_ulong_small in Hlogs by lia. lia.
Qed.

Lemma verified_logs (c : config) (j pos : nat) :
  verified c j pos = l ← (w_log <$> c_threads c) !! j; l !! pos.
Proof.
  unfold verified. rewrite list_lookup_fmap.
  by destruct (c_threads c !! j).
Qed.

Lemma partition_logs_lookup (s : Z) (threads count i k : nat) :
  (i < threads)%nat → (k < count)%nat →
  (l ← partition_logs s threads count !! i; l !! k)
    = Some (s + Z.of_nat i * Z.of_nat count + Z.of_nat k).
Proof.
  intros Hi Hk. unfold partition_logs.
  rewrite list_lookup_fmap, lookup_seq_lt by done. cbn.
  by rewrite list_lookup_fmap, lookup_seq_lt.
Qed.

(** Whatever the schedule, with at least two threads and at least two
    iterations per thread the values verified in the first batch are not
    the partition of the batch. *)
Lemma no_schedule_gives_partition (vfuel : nat) (cf : settings) (s : Z)
    (sched : list nat) (c : config) (threads count : nat) :
  (2 ≤ threads)%nat → (2 ≤ count)%nat →
  iterations_per_thread cf = Z.of_nat count → Z.of_nat count < 2 ^ 64 →
  run vfuel cf sched (initial_config (initial_heap s)) = Ret c →
  c_batches c = O →
  w_log <$> c_threads c ≠ partition_logs s threads count.
Proof.
  intros Hthreads Hcount Hipt Hlt Hrun Hb Hlogs.
  apply (no_schedule_partitions vfuel cf s sched c); [lia | done ..|].
  rewrite !verified_logs, Hlogs, !partition_logs_lookup by lia.
  rewrite Hipt. split; f_equal; lia.
Qed.

(** *** The claims on the scheduler *)

(** C8: the product of line 106 is taken in [uint64_t] and wraps.  The
    lines ["2"] and ["9223372036854775808"] are accepted as thread count
    and iterations per thread; their product is [2^64] and the batch size
    is 0, so the first batch from the start number 1 is announced as the
    empty range from 1 to 1. *)
Theorem C8_batch_size_wraps :
  2 * 2 ^ 63 = 2 ^ 64 ∧
  batch_size (Settings 2 (2 ^ 63)) = 0 ∧
  ∃ c, program 0 ["2"; "9223372036854775808"; "1"] (main_steps 1)
         = Some (Settings 2 (2 ^ 63), Ret c) ∧
       c_out c = [(1, 1)].
Proof.
  split; [reflexivity |]. split; [reflexivity |].
  eexists. split; [vm_compute; reflexivity |]. reflexivity.
Qed.

(** C1: the workers of a batch do not get the ranges
    [[S + i * I, S + (i + 1) * I)].  With two threads, three iterations per
    thread and the start number 10, the batch is announced as 10 - 16 and
    the partition is 10, 11, 12 and 13, 14, 15.  When each thread runs as
    soon as it is launched the first one verifies 10, 11, 12 and the second
    one 16, 17, 18, because the increments of the first thread and the
    additions of the main thread land in the same cell; when the threads
    run after the launch loop they use the cell after line 134 has cleared
    it; and under no schedule are the values verified in the first batch
    the partition. *)
Theorem C1_workers_miss_the_partition :
  (∃ c, program 100 ["2"; "3"; "10"] (eager_batch 2 3)
          = Some (Settings 2 3, Ret c) ∧
        c_out c = [(10, 16)] ∧
        c_batches c = 1%nat ∧
        w_log <$> c_threads c = [[10; 11; 12]; [16; 17; 18]]) ∧
  program 100 ["2"; "3"; "10"] (late_batch 2 3)
    = Some (Settings 2 3, Fault) ∧
  partition_logs 10 2 3 = [[10; 11; 12]; [13; 14; 15]] ∧
  (∀ vfuel sched c,
     run vfuel (Settings 2 3) sched (initial_config (initial_heap 10)) = Ret c →
     c_batches c = O →
     w_log <$> c_threads c ≠ partition_logs 10 2 3).
Proof.
  split; [| split; [| split]].
  - eexists. split; [vm_compute; reflexivity |]. by repeat split.
  - vm_compute. reflexivity.
  - reflexivity.
  - intros vfuel sched c Hrun Hb.
    apply (no_schedule_gives_partition vfuel (Settings 2 3) 10 sched c);
      [lia | lia | reflexivity | reflexivity | done | done].
Qed.

Lemma C1_workers_miss_the_partition_witness :
  ∃ c, run 100 (Settings 2 3)
         (main_steps 2 ++ eager_launches 0 2 3 ++ main_steps 3)
         (initial_config (initial_heap 10)) = Ret c ∧
       c_pc c = PNext ∧
       w_log <$> c_threads c ≠ partition_logs 10 2 3.
Proof.
  eexists. split; [vm_compute; reflexivity |]. split; [reflexivity |].
  exact (proj2 (proj2 (proj2 C1_workers_miss_the_partition)) 100%nat
           (main_steps 2 ++ eager_launches 0 2 3 ++ main_steps 3) _
           ltac:(vm_compute; reflexivity) eq_refl).
Defined.

(** C4: the threads share the integer [thread_start_number] with each
    other and with the main thread: under every schedule every thread
    holds the address of that one cell.  With two threads, three
    iterations per thread and the start number 10: after the first thread
    has verified 10 and incremented, the main thread finds 11 in its
    [thread_start_number]; it adds 3, and the second thread starts at 14;
    and a first thread that starts after the main thread has added 3
    verifies 13. *)
Theorem C4_threads_share_thread_start_number :
  (∀ vfuel cf s0 sched c,
     run vfuel cf sched (initial_config (initial_heap s0)) = Ret c →
     Forall (λ w, w_ptr w = thread_start_number) (c_threads c)) ∧
  (∃ c, program 100 ["2"; "3"; "10"] [0; 0; 0; 1; 1]%nat
          = Some (Settings 2 3, Ret c) ∧
        c_heap c !! thread_start_number = Some 11) ∧
  (∃ c, program 100 ["2"; "3"; "10"] [0; 0; 0; 1; 1; 0; 0; 2]%nat
          = Some (Settings 2 3, Ret c) ∧
        w_log <$> c_threads c = [[10]; [14]]) ∧
  (∃ c, program 100 ["2"; "3"; "10"] [0; 0; 0; 0; 1]%nat
          = Some (Settings 2 3, Ret c) ∧
        w_log <$> c_threads c = [[13]]).
Proof.
  split; [exact workers_share_cell |].
  repeat split; eexists; (split; [vm_compute; reflexivity |]); reflexivity.
Qed.

Lemma C4_threads_share_thread_start_number_witness :
  ∃ c, run 100 (Settings 2 3) (eager_batch 2 3)
         (initial_config (initial_heap 10)) = Ret c ∧
       length (c_threads c) = 2%nat ∧
       Forall (λ w, w_ptr w = thread_start_number) (c_threads c).
Proof.
  eexists. split; [vm_compute; reflexivity |]. split; [reflexivity |].
  exact (proj1 C4_threads_share_thread_start_number 100%nat (Settings 2 3) 10
           (eager_batch 2 3) _ ltac:(vm_compute; reflexivity)).
Defined.

(** * Further properties of the program *)

(** ** More on the verifier (lines 18-40) *)

Lemma collatz_next_nonpos (c : Z) : c ≤ 0 → collatz_next c ≤ 0.
Proof.
  intros Hc. unfold collatz_next. destruct (Z.even c) eqn:He.
  - apply Z.div_le_upper_bound; lia.
  - assert (c ≠ 0) by (intros ->; discriminate). lia.
Qed.

Lemma collatz_steps_nonpos (fuel : nat) (c : Z) :
  c ≤ 0 → collatz_steps fuel c = None.
Proof.
  revert c. induction fuel as [| fuel IH]; intros c Hc; [done |].
  cbn [collatz_steps]. destruct (Z.eqb_spec c 1); [lia |].
  by rewrite (IH _ (collatz_next_nonpos c Hc)).
Qed.

Lemma collatz_steps_pow2 (k : nat) :
  collatz_steps (S k) (2 ^ Z.of_nat k) = Some k ∧
  collatz_steps k (2 ^ Z.of_nat k) = None.
Proof.
  induction k as [| k [IH1 IH2]]; [done |].
  assert (Hpow : 2 ^ Z.of_nat (S k) = 2 * 2 ^ Z.of_nat k).
  { rewrite Nat2Z.inj_succ. apply Z.pow_succ_r. lia. }
  assert (Hpos : 0 < 2 ^ Z.of_nat k) by (apply Z.pow_pos_nonneg; lia).
  assert (Hnext : collatz_next (2 ^ Z.of_nat (S k)) = 2 ^ Z.of_nat k).
  { unfold collatz_next. rewrite Hpow, Z.even_mul. cbn [Z.even orb].
    rewrite Z.mul_comm. apply Z.div_mul. lia. }
  split.
  - change (collatz_steps (S (S k)) (2 ^ Z.of_nat (S k)))
      with (if 2 ^ Z.of_nat (S k) =? 1 then Some O
            else S <$> collatz_steps (S k) (collatz_next (2 ^ Z.of_nat (S k)))).
    destruct (Z.eqb_spec (2 ^ Z.of_nat (S k)) 1); [lia |].
    by rewrite Hnext, IH1.
  - change (collatz_steps (S k) (2 ^ Z.of_nat (S k)))
      with (if 2 ^ Z.of_nat (S k) =? 1 then Some O
            else S <$> collatz_steps k (collatz_next (2 ^ Z.of_nat (S k)))).
    destruct (Z.eqb_spec (2 ^ Z.of_nat (S k)) 1); [lia |].
    by rewrite Hnext, IH2.
Qed.

(** X1: the verifier faults exactly when its argument is not initialised:
    on an initialised integer the exact division of line 29 is applied
    to even numbers only. *)
Theorem verifier_faults_iff_uninitialised (fuel : nat) (start_number : loc)
    (h : heap) :
  collatz_conjecture fuel start_number h = Fault ↔ h !! start_number = None.
Proof.
  split.
  - destruct (h !! start_number) as [v |] eqn:Hv; [| done].
    rewrite (collatz_conjecture_steps _ _ _ v Hv).
    by destruct (collatz_steps fuel v).
  - apply collatz_conjecture_unset.
Qed.

(** X2: when the verifier returns after [k] steps on the value [v], the
    Collatz sequence from [v] is at 1 after [k] steps and not before. *)
Theorem verifier_return_is_first_one (fuel : nat) (start_number : loc)
    (h h' : heap) (v : Z) (k : nat) :
  h !! start_number = Some v →
  collatz_conjecture fuel start_number h = Ret (k, h') →
  Nat.iter k collatz_next v = 1 ∧
  ∀ j, (j < k)%nat → Nat.iter j collatz_next v ≠ 1.
Proof.
  intros Hv. rewrite (collatz_conjecture_steps _ _ _ v Hv).
  destruct (collatz_steps fuel v) as [k' |] eqn:Hk; [| done].
  intros [= <- _]. split.
  - by apply (collatz_steps_iter fuel).
  - by apply (collatz_steps_first fuel).
Qed.

Lemma verifier_return_is_first_one_witness :
  Nat.iter 8 collatz_next 6 = 1 ∧
  ∀ j, (j < 8)%nat → Nat.iter j collatz_next 6 ≠ 1.
Proof.
  apply (verifier_return_is_first_one 20 5%positive {[5%positive := 6]}
           {[5%positive := 6]} 6 8).
  - apply lookup_singleton_eq.
  - vm_compute. reflexivity.
Defined.

(** X3: on zero and on a negative number the verifier does not return,
    whatever the fuel: the sequence stays at or below zero. *)
Theorem verifier_loops_on_nonpositive (fuel : nat) (start_number : loc)
    (h : heap) (v : Z) :
  h !! start_number = Some v →
  v ≤ 0 →
  collatz_conjecture fuel start_number h = OutOfFuel.
Proof.
  intros Hv Hle. rewrite (collatz_conjecture_steps _ _ _ v Hv).
  by rewrite collatz_steps_nonpos.
Qed.

Lemma verifier_loops_on_nonpositive_witness :
  collatz_conjecture 1000 5%positive {[5%positive := -7]} = OutOfFuel.
Proof.
  apply (verifier_loops_on_nonpositive 1000 5%positive {[5%positive := -7]}
           (-7)).
  - apply lookup_singleton_eq.
  - lia.
Defined.

(** X4: on [2^k] the verifier returns after exactly [k] halvings: [k + 1]
    rounds of the loop suffice and [k] rounds do not. *)
Theorem verifier_on_power_of_two (k : nat) (start_number : loc) (h : heap) :
  h !! start_number = Some (2 ^ Z.of_nat k) →
  collatz_conjecture (S k) start_number h = Ret (k, h) ∧
  collatz_conjecture k start_number h = OutOfFuel.
Proof.
  intros Hv. rewrite !(collatz_conjecture_steps _ _ _ _ Hv).
  destruct (collatz_steps_pow2 k) as [-> ->]. done.
Qed.

Lemma verifier_on_power_of_two_witness :
  collatz_conjecture 11 5%positive {[5%positive := 1024]}
    = Ret (10%nat, {[5%positive := 1024]}) ∧
  collatz_conjecture 10 5%positive {[5%positive := 1024]} = OutOfFuel.
Proof.
  apply (verifier_on_power_of_two 10 5%positive {[5%positive := 1024]}).
  apply lookup_singleton_eq.
Defined.

(** ** More on the worker (lines 44-51) *)

Lemma thread_loop_mono (vfuel fuel fuel' : nat) (p : loc) (c i : Z)
    (h : heap) (r : list Z * heap) :
  thread_loop vfuel fuel p c i h = Ret r → (fuel ≤ fuel')%nat →
  thread_loop vfuel fuel' p c i h = Ret r.
Proof.
  revert fuel' i h r. induction fuel as [| fuel IH]; intros fuel' i h r;
    [done |].
  intros Hrun Hle. destruct fuel' as [| fuel']; [lia |].
  rewrite thread_loop_unfold in *. destruct (i <? c); [| done].
  destruct (mpz_read p h) as [v| |]; cbn [mbind result_bind] in *;
    [| done ..].
  destruct (collatz_conjecture vfuel p h) as [[k h1]| |];
    cbn [mbind result_bind] in *; [| done ..].
  destruct (mpz_add_ui p p 1 h1) as [h2| |]; cbn [mbind result_bind] in *;
    [| done ..].
  destruct (thread_loop vfuel fuel p c (to_uint (i + 1)) h2) as [r1| |] eqn:Hr;
    cbn [mbind result_bind] in Hrun; [| done ..].
  by rewrite (IH fuel' _ _ r1 Hr) by lia.
Qed.

(** The loop from [i] up to [c] is the loop from [i + d] up to [c + d]. *)
Lemma thread_loop_shift (vfuel fuel : nat) (p : loc) (c i d : Z) (h : heap) :
  0 ≤ i → 0 ≤ d → c + d < 2 ^ UINT_BITS →
  thread_loop vfuel fuel p (c + d) (i + d) h = thread_loop vfuel fuel p c i h.
Proof.
  intros Hi Hd Hc. revert i h Hi.
  induction fuel as [| fuel IH]; intros i h Hi; [done |].
  rewrite !thread_loop_unfold.
  replace (i + d <? c + d) with (i <? c) by lia.
  destruct (Z.ltb_spec i c); [| done].
  replace (to_uint (i + d + 1)) with (i + 1 + d) by (rewrite to_uint_small; lia).
  rewrite (to_uint_small (i + 1)) by lia.
  destruct (mpz_read p h) as [v| |]; cbn [mbind result_bind]; [| done ..].
  destruct (collatz_conjecture vfuel p h) as [[k h1]| |];
    cbn [mbind result_bind]; [| done ..].
  destruct (mpz_add_ui p p 1 h1) as [h2| |]; cbn [mbind result_bind];
    [| done ..].
  by rewrite IH by lia.
Qed.

(** The loop up to [c] is the loop up to [a], then the loop from [a]. *)
Lemma thread_loop_split (vfuel f1 f2 : nat) (p : loc) (a c i : Z)
    (h h1 h2 : heap) (l1 l2 : list Z) :
  0 ≤ i ≤ a → a ≤ c → c < 2 ^ UINT_BITS →
  thread_loop vfuel f1 p a i h = Ret (l1, h1) →
  thread_loop vfuel f2 p c a h1 = Ret (l2, h2) →
  thread_loop vfuel (f1 + f2) p c i h = Ret (l1 ++ l2, h2).
Proof.
  intros Hi Hac Hc. revert i h l1 Hi.
  induction f1 as [| f1 IH]; intros i h l1 Hi; [done |].
  intros Hfirst Hsecond. rewrite thread_loop_unfold in Hfirst.
  destruct (Z.ltb_spec i a) as [Hlt | Hge].
  - change (S f1 + f2)%nat with (S (f1 + f2)). rewrite thread_loop_unfold.
    replace (i <? c) with true by (symmetry; lia).
    destruct (mpz_read p h) as [v| |]; cbn [mbind result_bind] in *;
      [| done ..].
    destruct (collatz_conjecture vfuel p h) as [[k h']| |];
      cbn [mbind result_bind] in *; [| done ..].
    destruct (mpz_add_ui p p 1 h') as [h''| |]; cbn [mbind result_bind] in *;
      [| done ..].
    destruct (thread_loop vfuel f1 p a (to_uint (i + 1)) h'')
      as [[l h3]| |] eqn:Hrec; cbn [mbind result_bind] in Hfirst; [| done ..].
    injection Hfirst as <- <-.
    rewrite to_uint_small in * by lia.
    by rewrite (IH (i + 1) h'' l ltac:(lia) Hrec Hsecond).
  - injection Hfirst as <- <-. replace i with a by lia.
    apply (thread_loop_mono vfuel f2); [done | lia].
Qed.

Lemma thread_loop_no_fault (vfuel fuel : nat) (p : loc) (c i s : Z)
    (h : heap) :
  h !! p = Some s → thread_loop vfuel fuel p c i h ≠ Fault.
Proof.
  revert i s h. induction fuel as [| fuel IH]; intros i s h Hp; [done |].
  rewrite thread_loop_unfold. destruct (i <? c); [| done].
  rewrite (mpz_read_Some _ _ _ Hp). cbn [mbind result_bind].
  rewrite (collatz_conjecture_steps _ _ _ s Hp).
  destruct (collatz_steps vfuel s); cbn [mbind result_bind]; [| done].
  rewrite (mpz_add_ui_self _ _ s _ Hp). cbn [mbind result_bind].
  specialize (IH (to_uint (i + 1)) (s + 1) (<[p := s + 1]> h)
                (lookup_insert_eq _ _ _)).
  by destruct (thread_loop vfuel fuel p c (to_uint (i + 1)) _) as [[l h'] | |].
Qed.

(** What a return of the loop tells. *)
Lemma thread_loop_return (vfuel fuel : nat) (p : loc) (c i s : Z)
    (h h' : heap) (log : list Z) :
  h !! p = Some s → 0 ≤ i → c < 2 ^ UINT_BITS →
  thread_loop vfuel fuel p c i h = Ret (log, h') →
  (∀ k, 0 ≤ k < c - i → reaches_one (s + k)) ∧
  log = (λ k, s + Z.of_nat k) <$> seq 0 (Z.to_nat (c - i)) ∧
  h' = <[p := s + Z.max 0 (c - i)]> h.
Proof.
  intros Hp Hi Hc. revert i s h log Hp Hi.
  induction fuel as [| fuel IH]; intros i s h log Hp Hi; [done |].
  rewrite thread_loop_unfold. destruct (Z.ltb_spec i c) as [Hlt | Hge].
  - rewrite (mpz_read_Some _ _ _ Hp). cbn [mbind result_bind].
    rewrite (collatz_conjecture_steps _ _ _ s Hp).
    destruct (collatz_steps vfuel s) as [r |] eqn:Hr;
      cbn [mbind result_bind]; [| done].
    rewrite (mpz_add_ui_self _ _ s _ Hp). cbn [mbind result_bind].
    rewrite to_uint_small by lia.
    destruct (thread_loop vfuel fuel p c (i + 1) _) as [[l h3]| |] eqn:Hrec;
      cbn [mbind result_bind]; [| done ..].
    intros [= <- <-].
    destruct (IH (i + 1) (s + 1) (<[p := s + 1]> h) l
                (lookup_insert_eq _ _ _) ltac:(lia) Hrec)
      as (Hreach & -> & ->).
    split; [| split].
    + intros k Hk. destruct (decide (k = 0)) as [-> | Hne].
      * rewrite Z.add_0_r. apply reaches_one_steps. by exists vfuel, r.
      * replace (s + k) with (s + 1 + (k - 1)) by lia. apply Hreach. lia.
    + replace (Z.to_nat (c - i)) with (S (Z.to_nat (c - (i + 1)))) by lia.
      cbn [seq fmap list_fmap]. rewrite Z.add_0_r. f_equal.
      rewrite <- fmap_S_seq, <- list_fmap_compose.
      apply list_fmap_ext. intros _ k _. cbn. lia.
    + rewrite insert_insert_eq. f_equal. lia.
  - intros [= <- <-]. split; [| split].
    + intros k Hk. lia.
    + by replace (Z.to_nat (c - i)) with O by lia.
    + replace (Z.max 0 (c - i)) with 0 by lia.
      by rewrite Z.add_0_r, insert_id.
Qed.

(** X5: with a count of [2^32] or more the worker does not return,
    whatever its start value: the [unsigned i] of line 46 stays below the
    count. *)
Theorem worker_loops_on_large_count (vfuel fuel : nat)
    (thread_start_number : loc) (count : Z) (h : heap) :
  2 ^ 32 ≤ count →
  ¬ returns (thread_procedure vfuel fuel thread_start_number count h).
Proof.
  intros Hc. apply thread_loop_count_wraps; unfold UINT_BITS; lia.
Qed.

Lemma worker_loops_on_large_count_witness :
  ¬ returns (thread_procedure 100 1000 3%positive (2 ^ 40) {[3%positive := 5]}).
Proof.
  apply (worker_loops_on_large_count 100 1000 3%positive (2 ^ 40)). lia.
Defined.

(** X6: the worker faults exactly when it has a round to run on an integer
    that is not initialised; on an initialised integer it never faults. *)
Theorem worker_faults_iff_uninitialised (vfuel : nat)
    (thread_start_number : loc) (count : Z) (h : heap) :
  (∃ fuel, thread_procedure vfuel fuel thread_start_number count h = Fault) ↔
  h !! thread_start_number = None ∧ 0 < count.
Proof.
  unfold thread_procedure. split.
  - intros [fuel Hf].
    destruct (h !! thread_start_number) as [s |] eqn:Hp.
    { by destruct (thread_loop_no_fault vfuel fuel _ count 0 s h Hp). }
    split; [done |]. destruct fuel as [| fuel]; [done |].
    rewrite thread_loop_unfold in Hf. by destruct (Z.ltb_spec 0 count).
  - intros [Hp Hc]. exists 1%nat. rewrite thread_loop_unfold.
    replace (0 <? count) with true by (symmetry; lia).
    unfold mpz_read. by rewrite Hp.
Qed.

(** X7: when the worker returns from the start value [s] with the count
    [c], the Collatz sequence from each of [s], ..., [s + c - 1] reaches 1,
    these are the values it has verified, in this order, the count was
    below [2^32], and the integer is left at [s + c] (at [s] for a count of
    zero). *)
Theorem worker_return_certifies_range (vfuel fuel : nat)
    (thread_start_number : loc) (s c : Z) (h h' : heap) (log : list Z) :
  h !! thread_start_number = Some s →
  thread_procedure vfuel fuel thread_start_number c h = Ret (log, h') →
  c < 2 ^ 32 ∧
  (∀ k, 0 ≤ k < c → reaches_one (s + k)) ∧
  log = (λ k, s + Z.of_nat k) <$> seq 0 (Z.to_nat c) ∧
  h' = <[thread_start_number := s + Z.max 0 c]> h.
Proof.
  intros Hp Hrun.
  assert (Hc : c < 2 ^ 32).
  { destruct (Z.lt_ge_cases c (2 ^ 32)) as [| Hge]; [done |].
    destruct (thread_loop_count_wraps vfuel fuel thread_start_number c 0 h);
      try (unfold UINT_BITS; lia).
    by eexists. }
  split; [done |]. unfold thread_procedure in Hrun.
  destruct (thread_loop_return vfuel fuel _ c 0 s h h' log Hp ltac:(lia)
              ltac:(unfold UINT_BITS; lia) Hrun) as (Hreach & Hlog & Hh).
  rewrite Z.sub_0_r in *. done.
Qed.

Lemma worker_return_certifies_range_witness :
  3 < 2 ^ 32 ∧
  (∀ k, 0 ≤ k < 3 → reaches_one (10 + k)) ∧
  [10; 11; 12] = (λ k, 10 + Z.of_nat k) <$> seq 0 (Z.to_nat 3) ∧
  ({[3%positive := 13]} : heap)
    = <[3%positive := 10 + Z.max 0 3]> {[3%positive := 10]}.
Proof.
  apply (worker_return_certifies_range 100 10 3%positive 10 3
           {[3%positive := 10]} {[3%positive := 13]} [10; 11; 12]).
  - apply lookup_singleton_eq.
  - vm_compute. reflexivity.
Defined.

(** X8: running the worker for [a] rounds and then, on the same integer,
    for [b] rounds is running it once for [a + b] rounds, as long as
    [a + b < 2^32]: the values verified are those of the first run followed
    by those of the second. *)
Theorem worker_runs_compose (vfuel f1 f2 : nat) (thread_start_number : loc)
    (a b : Z) (h h1 h2 : heap) (l1 l2 : list Z) :
  0 ≤ a → 0 ≤ b → a + b < 2 ^ 32 →
  thread_procedure vfuel f1 thread_start_number a h = Ret (l1, h1) →
  thread_procedure vfuel f2 thread_start_number b h1 = Ret (l2, h2) →
  thread_procedure vfuel (f1 + f2) thread_start_number (a + b) h
    = Ret (l1 ++ l2, h2).
Proof.
  intros Ha Hb Hab Hfirst Hsecond. unfold thread_procedure in *.
  apply (thread_loop_split vfuel f1 f2 _ a (a + b) 0 h h1 h2);
    [lia | lia | unfold UINT_BITS; lia | done |].
  rewrite <- Hsecond. rewrite (Z.add_comm a b).
  apply (thread_loop_shift vfuel f2 _ b 0 a); [lia | lia |].
  unfold UINT_BITS. lia.
Qed.

Lemma worker_runs_compose_witness :
  thread_procedure 100 (3 + 4) 3%positive (2 + 3) {[3%positive := 10]}
    = Ret ([10; 11] ++ [12; 13; 14], {[3%positive := 15]}).
Proof.
  apply (worker_runs_compose 100 3 4 3%positive 2 3 {[3%positive := 10]}
           {[3%positive := 12]} {[3%positive := 15]});
    try lia; vm_compute; reflexivity.
Defined.

(** ** More on the input routines (lines 55-72 and 78-100) *)

Lemma is_digit_code (c : ascii) :
  is_digit c = true → 48 ≤ char_code c ≤ 57.
Proof. unfold is_digit. lia. Qed.

Lemma is_digit_not_space (c : ascii) : is_digit c = true → isspace c = false.
Proof. intros Hd%is_digit_code. unfold isspace. lia. Qed.

Lemma char_code_digit_char (d : Z) :
  0 ≤ d ≤ 9 → char_code (digit_char d) = 48 + d.
Proof.
  intros Hd. unfold char_code, digit_char.
  rewrite Ascii.N_ascii_embedding by lia. lia.
Qed.

Lemma digit_char_digit (d : Z) :
  0 ≤ d ≤ 9 →
  is_digit (digit_char d) = true ∧ digit_value (digit_char d) = d.
Proof.
  intros Hd. unfold is_digit, digit_value.
  rewrite (char_code_digit_char d Hd). lia.
Qed.

(** An accumulator in front of digits shifts by their number. *)
Lemma digits_prefix_acc (s : string) (acc : Z) :
  is_numeric s = true →
  digits_prefix s acc
    = acc * 10 ^ Z.of_nat (String.length s) + digits_prefix s 0.
Proof.
  revert acc. induction s as [| c r IH]; intros acc Hs.
  - cbn. lia.
  - cbn [is_numeric] in Hs. apply andb_prop in Hs as [Hc Hr].
    cbn [digits_prefix String.length]. rewrite Hc.
    rewrite (IH (acc * 10 + digit_value c) Hr), (IH (0 * 10 + digit_value c) Hr).
    rewrite Nat2Z.inj_succ, Z.pow_succ_r by lia. lia.
Qed.

Lemma to_string_go_value (fuel : nat) (n : Z) (acc : string) :
  0 ≤ n < 10 ^ Z.of_nat fuel →
  is_numeric acc = true →
  is_numeric (to_string_go fuel n acc) = true ∧
  digits_prefix (to_string_go fuel n acc) 0
    = n * 10 ^ Z.of_nat (String.length acc) + digits_prefix acc 0.
Proof.
  revert n acc. induction fuel as [| fuel IH]; intros n acc Hn Hacc.
  - cbn in *. split; [done | lia].
  - cbn [to_string_go].
    pose proof (Z.mod_pos_bound n 10 ltac:(lia)) as Hd.
    destruct (digit_char_digit (n mod 10) ltac:(lia)) as [Hdig Hval].
    set (acc' := String (digit_char (n mod 10)) acc).
    assert (Hacc' : is_numeric acc' = true).
    { subst acc'. cbn [is_numeric]. by rewrite Hdig, Hacc. }
    assert (Hvalue : digits_prefix acc' 0
                     = n mod 10 * 10 ^ Z.of_nat (String.length acc)
                       + digits_prefix acc 0).
    { subst acc'. cbn [digits_prefix]. rewrite Hdig, Hval.
      rewrite (digits_prefix_acc acc _ Hacc). lia. }
    pose proof (Z.div_mod n 10 ltac:(lia)) as Hdm.
    destruct (Z.eqb_spec (n / 10) 0) as [Hz | Hnz].
    + split; [done |]. rewrite Hvalue. f_equal. f_equal. lia.
    + rewrite Nat2Z.inj_succ, Z.pow_succ_r in Hn by lia.
      destruct (IH (n / 10) acc') as [Hnum Hgo]; [| done |].
      { split; [apply Z.div_pos; lia |].
        apply Z.div_lt_upper_bound; lia. }
      split; [done |]. rewrite Hgo, Hvalue. subst acc'.
      cbn [String.length]. rewrite Nat2Z.inj_succ, Z.pow_succ_r by lia. lia.
Qed.

(** [to_string] writes digits only, and they read back as the number. *)
Lemma to_string_value (n : Z) :
  0 ≤ n →
  is_numeric (to_string n) = true ∧ digits_prefix (to_string n) 0 = n.
Proof.
  intros Hn. unfold to_string.
  destruct (to_string_go_value (S (Z.to_nat (Z.log2 n))) n EmptyString)
    as [Hnum Hval]; [| done |].
  - split; [done |]. rewrite Nat2Z.inj_succ, Z2Nat.id by apply Z.log2_nonneg.
    destruct (decide (n = 0)) as [-> | Hne]; [done |].
    pose proof (Z.log2_spec n ltac:(lia)) as [_ Hlt].
    apply (Z.lt_le_trans _ _ _ Hlt).
    apply Z.pow_le_mono_l. lia.
  - split; [done |]. rewrite Hval. cbn. lia.
Qed.

Lemma is_numeric_c_str (s : string) : is_numeric s = true → c_str s = s.
Proof.
  induction s as [| c r IH]; [done |]. cbn [is_numeric c_str].
  intros [Hc Hr]%andb_prop. apply is_digit_code in Hc.
  replace (char_code c =? 0) with false by (symmetry; lia).
  by rewrite IH.
Qed.

Lemma is_numeric_skip_space (s : string) :
  is_numeric s = true → skip_space s = s.
Proof.
  destruct s as [| c r]; [done |]. cbn [is_numeric skip_space].
  intros [Hc _]%andb_prop. by rewrite (is_digit_not_space c Hc).
Qed.

(** On digits [strtoull] gives their value, or [ULLONG_MAX] beyond it. *)
Lemma strtoull_numeric (s : string) :
  is_numeric s = true →
  strtoull s = if ULLONG_MAX <? digits_prefix s 0 then ULLONG_MAX
               else digits_prefix s 0.
Proof.
  intros Hs. unfold strtoull. rewrite (is_numeric_skip_space s Hs).
  destruct s as [| c r]; [done |].
  cbn [is_numeric] in Hs. apply andb_prop in Hs as [Hc _].
  apply is_digit_code in Hc.
  replace (char_code c =? 45) with false by (symmetry; lia).
  replace (char_code c =? 43) with false by (symmetry; lia).
  done.
Qed.

Lemma mpz_digits_numeric (s : string) (acc : Z) :
  is_numeric s = true → mpz_digits s acc = Some (digits_prefix s acc).
Proof.
  revert acc. induction s as [| c r IH]; intros acc; [done |].
  cbn [is_numeric mpz_digits digits_prefix]. intros [Hc Hr]%andb_prop.
  rewrite (is_digit_not_space c Hc), Hc. by apply IH.
Qed.

Lemma mpz_set_str_numeric (s : string) :
  is_numeric s = true → s ≠ EmptyString →
  mpz_set_str s = Some (digits_prefix s 0).
Proof.
  intros Hs Hne. unfold mpz_set_str. rewrite (is_numeric_skip_space s Hs).
  destruct s as [| c r]; [done |].
  pose proof Hs as Hs'. cbn [is_numeric] in Hs'.
  apply andb_prop in Hs' as [Hc _].
  pose proof (is_digit_code c Hc) as Hcode.
  replace (char_code c =? 45) with false by (symmetry; lia).
  rewrite Hc. by rewrite (mpz_digits_numeric _ 0 Hs).
Qed.

Lemma mpz_digits_nonneg (s : string) (acc v : Z) :
  0 ≤ acc → mpz_digits s acc = Some v → 0 ≤ v.
Proof.
  revert acc. induction s as [| c r IH]; intros acc Hacc.
  - by intros [= <-].
  - cbn [mpz_digits]. destruct (isspace c); [by apply IH |].
    destruct (is_digit c) eqn:Hc; [| done].
    apply IH. pose proof (is_digit_value c Hc). lia.
Qed.

Lemma get_int64_prompts (stdin rest : list string) (r : Z) (n : nat) :
  get_int64 stdin = Some (r, n, rest) → (1 ≤ n)%nat.
Proof.
  destruct stdin as [| input stdin]; [done |]. cbn [get_int64].
  destruct (_ && _).
  - intros [= _ <- _]. lia.
  - unfold reprompted. destruct (get_int64 stdin) as [[[r' n'] rest'] |];
      [| done].
    cbn. intros [= _ <- _]. lia.
Qed.

(** The test of line 67 on a line of digits. *)
Lemma get_int64_numeric (input : string) (rest : list string) :
  is_numeric input = true →
  get_int64 (input :: rest) =
    if (1 <=? digits_prefix input 0) && (digits_prefix input 0 <=? 2 ^ 64 - 2)
    then Some (digits_prefix input 0, 1%nat, rest)
    else reprompted (get_int64 rest).
Proof.
  intros Hnum. cbn [get_int64].
  rewrite (is_numeric_c_str input Hnum), (strtoull_numeric input Hnum), Hnum.
  pose proof (digits_prefix_nonneg input 0 ltac:(lia)) as Hv.
  unfold ULLONG_MAX. generalize dependent (digits_prefix input 0). intros v Hv.
  repeat match goal with
         | |- context [?a =? ?b] => destruct (Z.eqb_spec a b)
         | |- context [?a <? ?b] => destruct (Z.ltb_spec a b)
         | |- context [?a <=? ?b] => destruct (Z.leb_spec a b)
         end; cbn [andb negb]; try lia; done.
Qed.

(** X9: [get_int64] returns at once on a line exactly when the line
    consists of decimal digits whose value lies in [[1, 2^64 - 2]], and it
    returns that value; signs and white space, which [strtoull] would
    accept, are refused. *)
Theorem get_int64_accepts_iff (input : string) (rest : list string) (v : Z) :
  get_int64 (input :: rest) = Some (v, 1%nat, rest) ↔
  is_numeric input = true ∧ v = digits_prefix input 0 ∧ 1 ≤ v ≤ 2 ^ 64 - 2.
Proof.
  split.
  - destruct (is_numeric input) eqn:Hnum.
    + rewrite (get_int64_numeric input rest Hnum).
      destruct (_ && _) eqn:Hin.
      * intros [= <-]. split; [done |]. split; [done |]. lia.
      * unfold reprompted.
        destruct (get_int64 rest) as [[[r n] rest'] |] eqn:Hrest; [| done].
        cbn. intros [= _ -> _].
        pose proof (get_int64_prompts _ _ _ _ Hrest). lia.
    + cbn [get_int64]. rewrite Hnum. cbn [andb]. unfold reprompted.
      destruct (get_int64 rest) as [[[r n] rest'] |] eqn:Hrest; [| done].
      cbn. intros [= _ -> _].
      pose proof (get_int64_prompts _ _ _ _ Hrest). lia.
  - intros (Hnum & -> & Hv). rewrite (get_int64_numeric input rest Hnum).
    by replace (_ && _) with true by (symmetry; lia).
Qed.

Lemma get_int64_accepts_iff_witness :
  get_int64 ["0042"; "7"] = Some (42, 1%nat, ["7"]).
Proof.
  apply (get_int64_accepts_iff "0042" ["7"] 42).
  split; [reflexivity |]. split; [reflexivity | lia].
Defined.

(** X10: [get_int64] returns the value of the first line it accepts: the
    lines before it are lines it refuses, and the count of prompts is the
    count of lines read. *)
Theorem get_int64_first_valid (stdin rest : list string) (r : Z) (n : nat) :
  get_int64 stdin = Some (r, n, rest) ↔
  ∃ bad good,
    stdin = bad ++ good :: rest ∧ n = S (length bad) ∧
    Forall (λ line, get_int64 [line] = None) bad ∧
    get_int64 [good] = Some (r, 1%nat, []).
Proof.
  split.
  - revert n. induction stdin as [| input stdin IH]; intros n; [done |].
    cbn [get_int64]. destruct (_ && _) eqn:Hok.
    + intros [= <- <- <-]. exists [], input. cbn [get_int64]. rewrite Hok.
      by repeat split.
    + unfold reprompted.
      destruct (get_int64 stdin) as [[[r' n'] rest'] |] eqn:Hrest; [| done].
      cbn. intros [= <- <- <-].
      destruct (IH n' eq_refl) as (bad & good & -> & -> & Hbad & Hgood).
      exists (input :: bad), good. repeat split; [| done].
      constructor; [| done]. cbn [get_int64]. by rewrite Hok.
  - intros (bad & good & -> & -> & Hbad & Hgood).
    induction Hbad as [| line bad Hline Hbad IH].
    + cbn [app length get_int64] in *. destruct (_ && _); [| done].
      by injection Hgood as <-.
    + cbn [app length get_int64] in *. destruct (_ && _); [done |].
      by rewrite IH.
Qed.

Lemma get_int64_first_valid_witness :
  get_int64 ["x7"; "0"; "5"; "6"] = Some (5, 3%nat, ["6"]).
Proof.
  apply (get_int64_first_valid ["x7"; "0"; "5"; "6"] ["6"] 5 3).
  exists ["x7"; "0"], "5". repeat split.
  repeat constructor.
Defined.

(** X11: the thread count the prompt recommends, half of
    [hardware_concurrency()], is accepted by [get_int64] when typed as it
    is printed if [hardware_concurrency()] is at least 2; when it is 0 or
    1 the program recommends 0, which [get_int64] refuses. *)
Theorem recommended_thread_count_accepted (hw : Z) (rest : list string) :
  0 ≤ hw < 2 ^ 32 →
  get_int64 (to_string (recommended_thread_count hw) :: rest) =
    if 2 <=? hw then Some (hw / 2, 1%nat, rest)
    else reprompted (get_int64 rest).
Proof.
  intros Hhw. unfold recommended_thread_count.
  assert (Hhalf : 0 ≤ hw / 2 < 2 ^ 32).
  { split; [apply Z.div_pos; lia | apply Z.div_lt_upper_bound; lia]. }
  rewrite to_uint_small by (unfold UINT_BITS; lia).
  destruct (to_string_value (hw / 2) ltac:(lia)) as [Hnum Hval].
  rewrite (get_int64_numeric _ rest Hnum), Hval.
  destruct (Z.leb_spec 2 hw) as [Hge | Hlt].
  - assert (1 ≤ hw / 2) by (apply Z.div_le_lower_bound; lia).
    by replace (_ && _) with true by (symmetry; lia).
  - assert (hw / 2 = 0) as -> by (apply Z.div_small; lia). done.
Qed.

Lemma recommended_thread_count_accepted_witness :
  get_int64 (to_string (recommended_thread_count 1) :: ["4"]) =
    if 2 <=? 1 then Some (1 / 2, 1%nat, ["4"])
    else reprompted (get_int64 ["4"]).
Proof.
  apply (recommended_thread_count_accepted 1 ["4"]). lia.
Defined.

(** X12: the loop for the start number refuses every line that starts,
    after white space, with a minus sign. *)
Theorem get_start_refuses_minus (input r : string) (c : ascii)
    (rest : list string) (h : heap) :
  skip_space (c_str input) = String c r →
  char_code c = 45 →
  get_start (input :: rest) h =
    reprompted
      (get_start rest (mpz_init_set_str batch_start_number (c_str input) h)).
Proof.
  intros Hskip Hc. apply get_start_reject.
  unfold mpz_set_str. rewrite Hskip, Hc. cbn [Z.eqb Pos.eqb].
  destruct r as [| c' r']; [done |].
  destruct (is_digit c'); [| done].
  destruct (mpz_digits (String c' r') 0) as [v |] eqn:Hv; [| done].
  cbn. pose proof (mpz_digits_nonneg _ 0 v ltac:(lia) Hv). lia.
Qed.

Lemma get_start_refuses_minus_witness :
  get_start ["  -12"; "3"] ∅ =
    reprompted
      (get_start ["3"] (mpz_init_set_str batch_start_number (c_str "  -12") ∅)).
Proof.
  apply (get_start_refuses_minus "  -12" "12" "-" ["3"] ∅); reflexivity.
Defined.

(** A line [mpz_set_str] reads as a positive number ends the loop for the
    start number at once. *)
Lemma get_start_positive (input : string) (rest : list string) (h : heap)
    (v : Z) :
  mpz_set_str (c_str input) = Some v →
  0 < v →
  get_start (input :: rest) h =
    Some (<[batch_start_number := v]> h, 1%nat, rest).
Proof.
  intros Hv Hpos. cbn [get_start]. unfold mpz_init_set_str, mpz_cmp_ui.
  rewrite Hv. cbn [default].
  rewrite (mpz_read_Some _ _ v) by apply lookup_insert_eq.
  cbn [mbind result_bind].
  by replace (v ?= 0) with Gt by (symmetry; apply Z.compare_gt_iff; lia).
Qed.

(** X13: the loop for the start number accepts every line of decimal
    digits with a positive value, of whatever size, and stores that value
    in [batch_start_number]. *)
Theorem get_start_accepts_digits (input : string) (rest : list string)
    (h : heap) :
  is_numeric input = true →
  0 < digits_prefix input 0 →
  get_start (input :: rest) h =
    Some (<[batch_start_number := digits_prefix input 0]> h, 1%nat, rest).
Proof.
  intros Hnum Hpos.
  assert (Hne : input ≠ EmptyString) by (intros ->; cbn in Hpos; lia).
  apply get_start_positive; [| done].
  rewrite (is_numeric_c_str input Hnum).
  by apply mpz_set_str_numeric.
Qed.

Lemma get_start_accepts_digits_witness :
  get_start ["340282366920938463463374607431768211456"; "1"] ∅ =
    Some (<[batch_start_number :=
              digits_prefix "340282366920938463463374607431768211456" 0]> ∅,
          1%nat, ["1"]).
Proof.
  apply (get_start_accepts_digits "340282366920938463463374607431768211456"
           ["1"] ∅); [reflexivity | vm_compute; reflexivity].
Defined.

(** X14: every valid configuration can be entered: the decimal forms of a
    thread count and an iteration count in [[1, 2^64 - 2]] and of a start
    number [≥ 1], in this order, are read back as these three values, with
    the start number in [batch_start_number] and in [batch_end_number]. *)
Theorem read_config_round_trip (tc ipt s : Z) (rest : list string) :
  1 ≤ tc ≤ 2 ^ 64 - 2 →
  1 ≤ ipt ≤ 2 ^ 64 - 2 →
  1 ≤ s →
  read_config (to_string tc :: to_string ipt :: to_string s :: rest)
    = Some (Settings tc ipt, initial_heap s, rest).
Proof.
  intros Htc Hipt Hs. unfold read_config.
  destruct (to_string_value tc ltac:(lia)) as [Hn1 Hv1].
  destruct (to_string_value ipt ltac:(lia)) as [Hn2 Hv2].
  destruct (to_string_value s ltac:(lia)) as [Hn3 Hv3].
  rewrite (get_int64_numeric _ _ Hn1), Hv1.
  replace (_ && _) with true by (symmetry; lia). cbn [mbind option_bind].
  rewrite (get_int64_numeric _ _ Hn2), Hv2.
  replace (_ && _) with true by (symmetry; lia). cbn [mbind option_bind].
  assert (Hstr : mpz_set_str (c_str (to_string s)) = Some s).
  { rewrite (is_numeric_c_str _ Hn3), mpz_set_str_numeric, Hv3; [done ..|].
    intros Heq. rewrite Heq in Hv3. cbn in Hv3. lia. }
  rewrite (get_start_positive _ _ _ s Hstr) by lia.
  cbn [mbind option_bind]. unfold mpz_init_set.
  rewrite (mpz_read_Some _ _ s) by apply lookup_insert_eq.
  done.
Qed.

Lemma read_config_round_trip_witness :
  read_config (to_string 8 :: to_string 1000000 :: to_string (2 ^ 68) :: [])
    = Some (Settings 8 1000000, initial_heap (2 ^ 68), []).
Proof.
  apply (read_config_round_trip 8 1000000 (2 ^ 68) []); lia.
Defined.

(** X15: on entry to the batch loop the store holds the start number read,
    a positive number, in [batch_start_number] and in [batch_end_number],
    and nothing else. *)
Theorem store_on_entry (stdin rest : list string) (cf : settings) (h : heap) :
  read_config stdin = Some (cf, h, rest) →
  ∃ s, 0 < s ∧ h = initial_heap s ∧
       h !! batch_start_number = Some s ∧ h !! batch_end_number = Some s ∧
       dom h = {[batch_start_number; batch_end_number]}.
Proof.
  intros Hread. destruct (read_config_heap _ _ _ _ Hread) as (s & Hs & ->).
  exists s. split; [done |]. split; [done |]. unfold initial_heap.
  split; [by rewrite lookup_insert_ne, lookup_insert_eq |].
  split; [by rewrite lookup_insert_eq |].
  rewrite !dom_insert_L, dom_empty_L. set_solver.
Qed.

Lemma store_on_entry_witness :
  ∃ s, 0 < s ∧ initial_heap 10 = initial_heap s ∧
       initial_heap 10 !! batch_start_number = Some s ∧
       initial_heap 10 !! batch_end_number = Some s ∧
       dom (initial_heap 10) = {[batch_start_number; batch_end_number]}.
Proof.
  apply (store_on_entry ["2"; "x"; "3"; "-1"; "10"] [] (Settings 2 3)
           (initial_heap 10)).
  vm_compute. reflexivity.
Defined.

(** X16: the loop for the start number returns on the first line that
    [mpz_set_str] reads as a positive number; the lines before it are
    lines it refuses, which leave no trace: the store differs from the one
    before the loop in [batch_start_number] only, which holds that
    number. *)
Theorem get_start_first_valid (stdin rest : list string) (h h' : heap)
    (n : nat) :
  get_start stdin h = Some (h', n, rest) →
  ∃ bad good v,
    stdin = bad ++ good :: rest ∧ n = S (length bad) ∧
    Forall (λ line, default 0 (mpz_set_str (c_str line)) ≤ 0) bad ∧
    mpz_set_str (c_str good) = Some v ∧ 0 < v ∧
    h' = <[batch_start_number := v]> h.
Proof.
  revert h n. induction stdin as [| input stdin IH]; intros h n; [done |].
  cbn [get_start]. unfold mpz_cmp_ui, mpz_init_set_str.
  rewrite (mpz_read_Some _ _ (default 0 (mpz_set_str (c_str input))))
    by apply lookup_insert_eq.
  cbn [mbind result_bind].
  assert (Hrec : default 0 (mpz_set_str (c_str input)) ≤ 0 →
    reprompted
      (get_start stdin
         (<[batch_start_number := default 0 (mpz_set_str (c_str input))]> h))
    = Some (h', n, rest) →
    ∃ bad good v,
      input :: stdin = bad ++ good :: rest ∧ n = S (length bad) ∧
      Forall (λ line, default 0 (mpz_set_str (c_str line)) ≤ 0) bad ∧
      mpz_set_str (c_str good) = Some v ∧ 0 < v ∧
      h' = <[batch_start_number := v]> h).
  { intros Hle. unfold reprompted.
    destruct (get_start stdin _) as [[[h1 n1] rest1] |] eqn:Hg; [| done].
    cbn. intros [= <- <- <-].
    destruct (IH _ _ Hg) as (bad & good & v & -> & -> & Hbad & Hv & Hpos & ->).
    exists (input :: bad), good, v. repeat split; try done.
    - by constructor.
    - by rewrite insert_insert_eq. }
  destruct (Z.compare_spec (default 0 (mpz_set_str (c_str input))) 0)
    as [Heq | Hlt | Hgt]; [apply Hrec; lia | apply Hrec; lia |].
  intros [= <- <- <-]. exists [], input.
  destruct (mpz_set_str (c_str input)) as [v |]; cbn in Hgt; [| lia].
  exists v. by repeat split.
Qed.

Lemma get_start_first_valid_witness :
  ∃ bad good v,
    ["-4"; "nine"; "0"; " 1 2"; "7"] = bad ++ good :: ["7"] ∧
    4%nat = S (length bad) ∧
    Forall (λ line, default 0 (mpz_set_str (c_str line)) ≤ 0) bad ∧
    mpz_set_str (c_str good) = Some v ∧ 0 < v ∧
    ({[batch_start_number := 12]} : heap) = <[batch_start_number := v]> ∅.
Proof.
  apply (get_start_first_valid ["-4"; "nine"; "0"; " 1 2"; "7"] ["7"] ∅
           {[batch_start_number := 12]} 4).
  vm_compute. reflexivity.
Defined.

(** ** More on the batch loop (lines 114-145) *)

(** What a statement of the main thread does. *)
Lemma main_step_cases (cf : settings) (c c' : config) :
  main_step cf c = Ret c' →
  match c_pc c with
  | PTrying =>
      ∃ s e, c_heap c !! batch_start_number = Some s ∧
             c_heap c !! batch_end_number = Some e ∧
             c' = Config
                    (<[batch_end_number := e + to_ulong (batch_size cf)]>
                       (c_heap c))
                    PInit (c_i c) (c_threads c) (c_batches c)
                    (c_out c ++ [(s, e + to_ulong (batch_size cf))])
  | PInit =>
      ∃ s, c_heap c !! batch_start_number = Some s ∧
           c' = Config (<[thread_start_number := s]> (c_heap c)) PLaunch 0 []
                  (c_batches c) (c_out c)
  | PLaunch =>
      c' = if c_i c <? thread_count cf
           then Config (c_heap c) PAdvance (c_i c)
                  (c_threads c ++
                     [spawn thread_start_number
                        (to_ulong (iterations_per_thread cf))])
                  (c_batches c) (c_out c)
           else Config (c_heap c) PClear (c_i c) (c_threads c) (c_batches c)
                  (c_out c)
  | PAdvance =>
      ∃ v, c_heap c !! thread_start_number = Some v ∧
           c' = Config
                  (<[thread_start_number :=
                       v + to_ulong (iterations_per_thread cf)]> (c_heap c))
                  PLaunch (to_uint (c_i c + 1)) (c_threads c) (c_batches c)
                  (c_out c)
  | PClear =>
      c' = Config (delete thread_start_number (c_heap c)) PJoin (c_i c)
             (c_threads c) (c_batches c) (c_out c)
  | PJoin =>
      c' = if forallb worker_done (c_threads c)
           then Config (c_heap c) PNext (c_i c) (c_threads c) (c_batches c)
                  (c_out c)
           else c
  | PNext =>
      ∃ s, c_heap c !! batch_start_number = Some s ∧
           c' = Config
                  (<[batch_start_number := s + to_ulong (batch_size cf)]>
                     (c_heap c))
                  PTrying (c_i c) (c_threads c) (S (c_batches c)) (c_out c)
  end.
Proof.
  unfold main_step. destruct (c_pc c).
  - unfold mpz_add_ui.
    destruct (mpz_read batch_end_number (c_heap c)) as [e| |] eqn:He;
      cbn [mbind result_bind]; [| done ..].
    apply mpz_read_Ret in He.
    destruct (mpz_read batch_start_number _) as [s| |] eqn:Hs;
      cbn [mbind result_bind]; [| done ..].
    apply mpz_read_Ret in Hs. rewrite lookup_insert_ne in Hs by done.
    rewrite (mpz_read_Some batch_end_number _ _ (lookup_insert_eq _ _ _)).
    cbn [mbind result_bind]. intros [= <-]. by exists s, e.
  - unfold mpz_init_set.
    destruct (mpz_read batch_start_number (c_heap c)) as [s| |] eqn:Hs;
      cbn [mbind result_bind]; [| done ..].
    apply mpz_read_Ret in Hs. intros [= <-]. by exists s.
  - destruct (c_i c <? thread_count cf); by intros [= <-].
  - unfold mpz_add_ui.
    destruct (mpz_read thread_start_number (c_heap c)) as [v| |] eqn:Hv;
      cbn [mbind result_bind]; [| done ..].
    apply mpz_read_Ret in Hv. intros [= <-]. by exists v.
  - by intros [= <-].
  - destruct (forallb worker_done (c_threads c)); by intros [= <-].
  - unfold mpz_add_ui.
    destruct (mpz_read batch_start_number (c_heap c)) as [s| |] eqn:Hs;
      cbn [mbind result_bind]; [| done ..].
    apply mpz_read_Ret in Hs. intros [= <-]. by exists s.
Qed.

(** An invariant of the steps is an invariant of the runs. *)
Lemma run_preserves (P : config → Prop) (vfuel : nat) (cf : settings) :
  (∀ tid c c', P c → step vfuel cf tid c = Ret c' → P c') →
  ∀ sched c c', P c → run vfuel cf sched c = Ret c' → P c'.
Proof.
  intros Hstep sched. induction sched as [| tid sched IH]; intros c c' Hc.
  - by intros [= <-].
  - cbn [run]. destruct (step vfuel cf tid c) as [c1| |] eqn:Hs;
      cbn [mbind result_bind]; [| done ..].
    apply IH. by apply (Hstep tid c).
Qed.

(** The same for the runs of the program from the start number [s0],
    where [batch_inv] may be used. *)
Lemma run_invariant (P : config → Prop) (vfuel : nat) (cf : settings)
    (s0 : Z) :
  P (initial_config (initial_heap s0)) →
  (∀ tid c c',
     batch_inv cf s0 c → P c → step vfuel cf tid c = Ret c' → P c') →
  ∀ sched c,
    run vfuel cf sched (initial_config (initial_heap s0)) = Ret c → P c.
Proof.
  intros Hinit Hstep sched c Hrun.
  apply (run_preserves (λ c, batch_inv cf s0 c ∧ P c) vfuel cf) in Hrun
    as [_ HP]; [done | | by split; [apply initial_inv |]].
  intros tid c1 c2 [Hb HP] Hs. split.
  - by apply (step_inv vfuel cf s0 tid c1).
  - by apply (Hstep tid c1).
Qed.

(** A step of a thread, seen from the configuration. *)
Lemma step_thread (vfuel : nat) (cf : settings) (k : nat) (c c' : config) :
  step vfuel cf (S k) c = Ret c' →
  c' = c ∨
  ∃ w w' h', c_threads c !! k = Some w ∧
             worker_step vfuel w (c_heap c) = Ret (w', h') ∧
             c' = with_thread c k w' h'.
Proof.
  cbn [step]. destruct (c_threads c !! k) as [w |] eqn:Hk.
  - destruct (worker_step vfuel w (c_heap c)) as [[w' h']| |] eqn:Hw;
      cbn [mbind result_bind]; [| done ..].
    intros [= <-]. right. by exists w, w', h'.
  - intros [= <-]. by left.
Qed.

Section more_invariants.
Context (vfuel : nat) (cf : settings) (s0 : Z).

Lemma out_inv_step (tid : nat) (c c' : config) :
  batch_inv cf s0 c → out_inv cf s0 c → step vfuel cf tid c = Ret c' →
  out_inv cf s0 c'.
Proof.
  intros [Hstart Hptr] [Hout Hpc] Hstep. destruct tid as [| k].
  - apply main_step_cases in Hstep. unfold out_inv.
    pose proof (to_ulong_small _ (batch_size_range cf)) as HB.
    destruct (c_pc c) eqn:Hpceq.
    + destruct Hstep as (s & e & Hs & He & ->). destruct Hpc as [Hlen Hend].
      cbn [c_out c_pc c_heap c_batches]. rewrite lookup_insert_eq.
      rewrite Hstart in Hs. rewrite Hend in He.
      injection Hs as <-. injection He as <-. rewrite HB.
      rewrite length_app. cbn [length]. rewrite Nat.add_1_r.
      split; [| split; [by rewrite Hlen | f_equal; lia]].
      rewrite seq_S, fmap_app, <- Hout. cbn [fmap list_fmap]. f_equal.
      unfold announced. rewrite Hlen. do 2 f_equal; lia.
    + destruct Hstep as (s & Hs & ->). cbn [c_out c_pc c_heap c_batches].
      rewrite lookup_insert_ne by done. by split.
    + subst c'. by destruct (c_i c <? thread_count cf); split.
    + destruct Hstep as (v & Hv & ->). cbn [c_out c_pc c_heap c_batches].
      rewrite lookup_insert_ne by done. by split.
    + subst c'. cbn [c_out c_pc c_heap c_batches].
      rewrite lookup_delete_ne by done. by split.
    + subst c'. destruct (forallb worker_done (c_threads c)); [by split |].
      by rewrite Hpceq.
    + destruct Hstep as (s & Hs & ->). cbn [c_out c_pc c_heap c_batches].
      rewrite lookup_insert_ne by done. destruct Hpc as [Hlen Hend].
      split; [done |]. split; [done |]. rewrite Hend. f_equal. lia.
  - destruct (step_thread _ _ _ _ _ Hstep)
      as [-> | (w & w' & h' & Hk & Hw & ->)]; [done |].
    destruct (worker_step_frame _ _ _ _ _ Hw) as [_ Hframe].
    pose proof (Forall_lookup_1 _ _ _ _ Hptr Hk) as Hw_ptr. cbn in Hw_ptr.
    unfold out_inv, with_thread. cbn [c_out c_pc c_heap c_batches].
    rewrite Hframe by (by rewrite Hw_ptr). by split.
Qed.

Lemma barrier_inv_step (tid : nat) (c c' : config) :
  barrier_inv c → step vfuel cf tid c = Ret c' → barrier_inv c'.
Proof.
  intros Hinv Hstep. destruct tid as [| k].
  - apply main_step_cases in Hstep. unfold barrier_inv in *.
    destruct (c_pc c) eqn:Hpc.
    + by destruct Hstep as (s & e & _ & _ & ->).
    + by destruct Hstep as (s & _ & ->).
    + subst c'. by destruct (c_i c <? thread_count cf).
    + by destruct Hstep as (v & _ & ->).
    + by subst c'.
    + subst c'. destruct (forallb worker_done (c_threads c)) eqn:Hall.
      * cbn [c_pc c_threads]. apply Forall_forall. intros w Hw.
        apply list_elem_of_In in Hw.
        apply (proj1 (forallb_forall _ _) Hall) in Hw.
        unfold worker_done in Hw. by destruct (w_pc w).
      * by rewrite Hpc.
    + by destruct Hstep as (s & _ & ->).
  - destruct (step_thread _ _ _ _ _ Hstep)
      as [-> | (w & w' & h' & Hk & Hw & ->)]; [done |].
    unfold barrier_inv, with_thread in *. cbn [c_pc c_threads].
    destruct (c_pc c); try done;
      (apply Forall_insert; [done |];
       pose proof (Forall_lookup_1 _ _ _ _ Hinv Hk) as Hdone; cbn in Hdone;
       unfold worker_step in Hw; rewrite Hdone in Hw;
       by injection Hw as <- _).
Qed.

Lemma launch_inv_step (tid : nat) (c c' : config) :
  0 ≤ thread_count cf < 2 ^ 32 →
  launch_inv cf c → step vfuel cf tid c = Ret c' → launch_inv cf c'.
Proof.
  intros Htc [Hcount Hpc] Hstep. destruct tid as [| k].
  - apply main_step_cases in Hstep. unfold launch_inv.
    destruct (c_pc c) eqn:Hpceq.
    + by destruct Hstep as (s & e & _ & _ & ->).
    + destruct Hstep as (s & _ & ->). cbn [c_pc c_threads c_i length].
      split; [constructor | lia].
    + subst c'. destruct (Z.ltb_spec (c_i c) (thread_count cf)).
      * cbn [c_pc c_threads c_i]. rewrite length_app. cbn [length].
        split; [| lia]. apply Forall_app. split; [done |].
        by repeat constructor.
      * cbn [c_pc c_threads c_i]. split; [done | lia].
    + destruct Hstep as (v & _ & ->). cbn [c_pc c_threads c_i].
      split; [done |]. rewrite to_uint_small by (unfold UINT_BITS; lia). lia.
    + by subst c'.
    + subst c'. destruct (forallb worker_done (c_threads c)); [done |].
      by rewrite Hpceq.
    + by destruct Hstep as (s & _ & ->).
  - destruct (step_thread _ _ _ _ _ Hstep)
      as [-> | (w & w' & h' & Hk & Hw & ->)]; [done |].
    unfold launch_inv, with_thread. cbn [c_pc c_threads c_i].
    rewrite length_insert. split; [| done].
    apply Forall_insert; [done |].
    pose proof (Forall_lookup_1 _ _ _ _ Hcount Hk) as Hc. cbn in Hc.
    unfold worker_step in Hw. destruct (w_pc w).
    + destruct (w_i w <? w_count w).
      * destruct (mpz_read _ _); cbn [mbind result_bind] in Hw; [| done ..].
        destruct (collatz_conjecture _ _ _) as [[? ?]| |];
          cbn [mbind result_bind] in Hw; [| done ..].
        by injection Hw as <- _.
      * by injection Hw as <- _.
    + destruct (mpz_add_ui _ _ _ _); cbn [mbind result_bind] in Hw;
        [| done ..].
      by injection Hw as <- _.
    + by injection Hw as <- _.
Qed.

End more_invariants.

(** What a statement of a thread does. *)
Lemma worker_step_inv (vfuel : nat) (w w' : worker) (h h' : heap) :
  worker_step vfuel w h = Ret (w', h') →
  (∃ v, w_pc w = WCall ∧ w_i w < w_count w ∧ h !! w_ptr w = Some v ∧
        h' = h ∧
        w' = Worker (w_ptr w) (w_count w) (w_i w) WIncr (w_log w ++ [v])) ∨
  (w_pc w = WCall ∧ w_count w ≤ w_i w ∧ h' = h ∧
   w' = Worker (w_ptr w) (w_count w) (w_i w) WDone (w_log w)) ∨
  (∃ v, w_pc w = WIncr ∧ h !! w_ptr w = Some v ∧
        h' = <[w_ptr w := v + 1]> h ∧
        w' = Worker (w_ptr w) (w_count w) (to_uint (w_i w + 1)) WCall
               (w_log w)) ∨
  (w_pc w = WDone ∧ h' = h ∧ w' = w).
Proof.
  unfold worker_step. destruct (w_pc w) eqn:Hpc.
  - destruct (Z.ltb_spec (w_i w) (w_count w)).
    + destruct (mpz_read (w_ptr w) h) as [v| |] eqn:Hv;
        cbn [mbind result_bind]; [| done ..].
      apply mpz_read_Ret in Hv.
      rewrite (collatz_conjecture_steps _ _ _ v Hv).
      destruct (collatz_steps vfuel v); cbn [mbind result_bind]; [| done].
      intros [= <- <-]. left. by exists v.
    + intros [= <- <-]. by right; left.
  - unfold mpz_add_ui.
    destruct (mpz_read (w_ptr w) h) as [v| |] eqn:Hv;
      cbn [mbind result_bind]; [| done ..].
    apply mpz_read_Ret in Hv. intros [= <- <-]. right; right; left.
    by exists v.
  - intros [= <- <-]. by right; right; right.
Qed.

Lemma rounds_inv_worker_step (vfuel : nat) (w w' : worker) (h h' : heap) :
  w_count w < 2 ^ 32 →
  rounds_inv w →
  worker_step vfuel w h = Ret (w', h') →
  rounds_inv w' ∧ w_count w' = w_count w.
Proof.
  intros Hc [Hi Hpc] Hstep. unfold rounds_inv.
  destruct (worker_step_inv _ _ _ _ _ Hstep)
    as [(v & Hw & Hlt & _ & _ & ->) |
        [(Hw & Hge & _ & ->) |
         [(v & Hw & _ & _ & ->) | (Hw & _ & ->)]]];
    rewrite Hw in Hpc; cbn [w_i w_count w_pc w_log].
  - rewrite length_app. cbn [length]. split; [| done]. lia.
  - split; [| done]. lia.
  - rewrite to_uint_small by (unfold UINT_BITS; lia). split; [| done]. lia.
  - split; [| done]. by rewrite Hw.
Qed.

Section completed_batch.
Context (vfuel : nat) (cf : settings) (s0 : Z).
Context (Htc : 0 ≤ thread_count cf < 2 ^ 32).
Context (Hipt : 0 ≤ iterations_per_thread cf < 2 ^ 32).

Lemma rounds_inv_step (tid : nat) (c c' : config) :
  launch_inv cf c ∧ Forall rounds_inv (c_threads c) →
  step vfuel cf tid c = Ret c' →
  launch_inv cf c' ∧ Forall rounds_inv (c_threads c').
Proof.
  intros [Hlaunch Hrounds] Hstep.
  split; [by apply (launch_inv_step vfuel cf tid c) |].
  assert (HI : to_ulong (iterations_per_thread cf) = iterations_per_thread cf)
    by (apply to_ulong_small; lia).
  destruct tid as [| k].
  - apply main_step_cases in Hstep. destruct (c_pc c) eqn:Hpceq.
    + by destruct Hstep as (s & e & _ & _ & ->).
    + destruct Hstep as (s & _ & ->). constructor.
    + subst c'. destruct (c_i c <? thread_count cf); [| done].
      cbn [c_threads]. apply Forall_app. split; [done |].
      repeat constructor; cbn; lia.
    + by destruct Hstep as (v & _ & ->).
    + by subst c'.
    + subst c'. by destruct (forallb worker_done (c_threads c)).
    + by destruct Hstep as (s & _ & ->).
  - destruct (step_thread _ _ _ _ _ Hstep)
      as [-> | (w & w' & h' & Hk & Hw & ->)]; [done |].
    cbn [with_thread c_threads]. apply Forall_insert; [done |].
    pose proof (Forall_lookup_1 _ _ _ _ (proj1 Hlaunch) Hk) as Hc. cbn in Hc.
    apply (rounds_inv_worker_step vfuel w w' (c_heap c) h'); [lia | | done].
    exact (Forall_lookup_1 _ _ _ _ Hrounds Hk).
Qed.

End completed_batch.

(** X17: under every schedule the ranges line 117 prints are, in order,
    [S0 + k * B] to [S0 + (k + 1) * B] for [k = 0, 1, ...], where [B] is the
    batch size: each range starts where the one before it ends; one range
    is printed per batch begun. *)
Theorem announced_ranges_abut (vfuel : nat) (cf : settings) (s0 : Z)
    (sched : list nat) (c : config) :
  run vfuel cf sched (initial_config (initial_heap s0)) = Ret c →
  (∀ k a b, c_out c !! k = Some (a, b) →
            a = s0 + Z.of_nat k * batch_size cf ∧ b = a + batch_size cf) ∧
  (length (c_out c) = c_batches c ∨ length (c_out c) = S (c_batches c)).
Proof.
  intros Hrun.
  assert (Hinv : out_inv cf s0 c).
  { apply (run_invariant (out_inv cf s0) vfuel cf s0) with (sched := sched);
      [| | done].
    - split; [done |]. split; [done |]. cbn. unfold initial_heap.
      rewrite lookup_insert_eq. f_equal. lia.
    - intros tid c1 c2. apply out_inv_step. }
  destruct Hinv as [Hout Hpc]. split.
  - intros k a b Hk. rewrite Hout, list_lookup_fmap in Hk.
    destruct (seq 0 (length (c_out c)) !! k) as [k' |] eqn:Hseq; [| done].
    apply lookup_seq in Hseq as [-> _]. cbn in Hk. unfold announced in Hk.
    injection Hk as <- <-. lia.
  - destruct (c_pc c); destruct Hpc as [Hlen _]; auto.
Qed.

Lemma announced_ranges_abut_witness :
  ∃ c, run 100 (Settings 2 3) (eager_batch 2 3 ++ eager_batch 2 3)
         (initial_config (initial_heap 10)) = Ret c ∧
       c_out c = [(10, 16); (16, 22)] ∧
       (∀ k a b, c_out c !! k = Some (a, b) →
                 a = 10 + Z.of_nat k * batch_size (Settings 2 3) ∧
                 b = a + batch_size (Settings 2 3)).
Proof.
  eexists. split; [vm_compute; reflexivity |]. split; [reflexivity |].
  exact (proj1 (announced_ranges_abut 100 (Settings 2 3) 10
                  (eager_batch 2 3 ++ eager_batch 2 3) _
                  ltac:(vm_compute; reflexivity))).
Defined.

(** X18: the join of line 137 is a barrier: under every schedule, when the
    main thread is at line 144, or past it and before the next launch
    loop, every thread of the batch has returned. *)
Theorem join_is_barrier (vfuel : nat) (cf : settings) (s0 : Z)
    (sched : list nat) (c : config) :
  run vfuel cf sched (initial_config (initial_heap s0)) = Ret c →
  c_pc c = PNext ∨ c_pc c = PTrying ∨ c_pc c = PInit →
  Forall (λ w, w_pc w = WDone) (c_threads c).
Proof.
  intros Hrun Hpc.
  assert (Hinv : barrier_inv c).
  { apply (run_invariant barrier_inv vfuel cf s0) with (sched := sched);
      [by constructor | | done].
    intros tid c1 c2 _. apply barrier_inv_step. }
  unfold barrier_inv in Hinv.
  by destruct Hpc as [Hpc | [Hpc | Hpc]]; rewrite Hpc in Hinv.
Qed.

Lemma join_is_barrier_witness :
  ∃ c, run 100 (Settings 2 3)
         (main_steps 2 ++ eager_launches 0 2 3 ++ main_steps 3)
         (initial_config (initial_heap 10)) = Ret c ∧
       c_pc c = PNext ∧ length (c_threads c) = 2%nat ∧
       Forall (λ w, w_pc w = WDone) (c_threads c).
Proof.
  eexists. split; [vm_compute; reflexivity |]. split; [reflexivity |].
  split; [reflexivity |].
  exact (join_is_barrier 100 (Settings 2 3) 10
           (main_steps 2 ++ eager_launches 0 2 3 ++ main_steps 3) _
           ltac:(vm_compute; reflexivity) (or_introl eq_refl)).
Defined.

(** X19: with a thread count and an iteration count below [2^32], under
    every schedule a batch that has passed the join was run by exactly
    [thread_count] threads, each of which has returned after exactly
    [iterations_per_thread] calls of the verifier. *)
Theorem completed_batch_work (vfuel : nat) (cf : settings) (s0 : Z)
    (sched : list nat) (c : config) :
  0 ≤ thread_count cf < 2 ^ 32 →
  0 ≤ iterations_per_thread cf < 2 ^ 32 →
  run vfuel cf sched (initial_config (initial_heap s0)) = Ret c →
  c_pc c = PNext →
  Z.of_nat (length (c_threads c)) = thread_count cf ∧
  Forall (λ w, w_pc w = WDone ∧
               Z.of_nat (length (w_log w)) = iterations_per_thread cf)
    (c_threads c).
Proof.
  intros Htc Hipt Hrun Hpc.
  assert (Hinv : launch_inv cf c ∧ Forall rounds_inv (c_threads c)).
  { apply (run_invariant
             (λ c, launch_inv cf c ∧ Forall rounds_inv (c_threads c))
             vfuel cf s0) with (sched := sched); [| | done].
    - split; [| constructor]. split; [constructor | done].
    - intros tid c1 c2 _. by apply rounds_inv_step. }
  assert (Hbar : barrier_inv c).
  { apply (run_invariant barrier_inv vfuel cf s0) with (sched := sched);
      [by constructor | | done].
    intros tid c1 c2 _. apply barrier_inv_step. }
  destruct Hinv as [[Hcount Hlen] Hrounds]. unfold barrier_inv in Hbar.
  rewrite Hpc in Hlen, Hbar. split; [done |].
  apply Forall_forall. intros w Hw.
  pose proof (proj1 (Forall_forall _ _) Hcount w Hw) as Hc. cbn in Hc.
  pose proof (proj1 (Forall_forall _ _) Hbar w Hw) as Hd. cbn in Hd.
  pose proof (proj1 (Forall_forall _ _) Hrounds w Hw) as [_ Hr].
  rewrite Hd in Hr. split; [done |].
  rewrite to_ulong_small in Hc by lia. lia.
Qed.

Lemma completed_batch_work_witness :
  ∃ c, run 100 (Settings 2 3)
         (main_steps 2 ++ eager_launches 0 2 3 ++ main_steps 3)
         (initial_config (initial_heap 10)) = Ret c ∧
       Z.of_nat (length (c_threads c)) = 2 ∧
       Forall (λ w, w_pc w = WDone ∧ Z.of_nat (length (w_log w)) = 3)
         (c_threads c).
Proof.
  eexists. split; [vm_compute; reflexivity |].
  exact (completed_batch_work 100 (Settings 2 3) 10
           (main_steps 2 ++ eager_launches 0 2 3 ++ main_steps 3) _
           ltac:(cbn; lia) ltac:(cbn; lia)
           ltac:(vm_compute; reflexivity) eq_refl).
Defined.

(** *** The integer shared by the threads *)

Lemma cleared_inv_step (vfuel : nat) (cf : settings) (s0 : Z) (tid : nat)
    (c c' : config) :
  batch_inv cf s0 c → cleared_inv c → step vfuel cf tid c = Ret c' →
  cleared_inv c'.
Proof.
  intros [_ Hptr] Hinv Hstep. destruct tid as [| k].
  - apply main_step_cases in Hstep. unfold cleared_inv in *.
    destruct (c_pc c) eqn:Hpceq.
    + destruct Hstep as (s & e & _ & _ & ->). cbn [c_pc c_heap].
      by rewrite lookup_insert_ne.
    + by destruct Hstep as (s & _ & ->).
    + subst c'. by destruct (c_i c <? thread_count cf).
    + by destruct Hstep as (v & _ & ->).
    + subst c'. cbn [c_pc c_heap]. apply lookup_delete_eq.
    + subst c'. destruct (forallb worker_done (c_threads c)); [done |].
      by rewrite Hpceq.
    + destruct Hstep as (s & _ & ->). cbn [c_pc c_heap].
      by rewrite lookup_insert_ne.
  - destruct (step_thread _ _ _ _ _ Hstep)
      as [-> | (w & w' & h' & Hk & Hw & ->)]; [done |].
    pose proof (Forall_lookup_1 _ _ _ _ Hptr Hk) as Hw_ptr. cbn in Hw_ptr.
    unfold cleared_inv, with_thread in *. cbn [c_pc c_heap].
    destruct (worker_step_inv _ _ _ _ _ Hw)
      as [(v & _ & _ & Hv & -> & _) |
          [(_ & _ & -> & _) |
           [(v & _ & Hv & -> & _) | (_ & -> & _)]]]; try done.
    rewrite Hw_ptr in Hv. destruct (c_pc c); try done; congruence.
Qed.

(** A thread with a statement to run on a cleared integer faults. *)
Lemma pending_faults (vfuel : nat) (w : worker) (h : heap) :
  pending w = true → h !! w_ptr w = None → worker_step vfuel w h = Fault.
Proof.
  unfold pending, worker_step. intros Hp Hnone. destruct (w_pc w); [| | done].
  - rewrite Hp. unfold mpz_read. by rewrite Hnone.
  - unfold mpz_add_ui, mpz_read. by rewrite Hnone.
Qed.

(** X20: if the main thread reaches the join while a thread still has a
    statement to run, that thread's next statement is a use of a cleared
    integer: the thread holds the address of [thread_start_number], which
    line 134 has cleared, and its next statement, the copy of line 21 or
    the addition of line 49, reads it. *)
Theorem pending_thread_uses_cleared_integer (vfuel : nat) (cf : settings)
    (s0 : Z) (sched : list nat) (c : config) (k : nat) (w : worker) :
  run vfuel cf sched (initial_config (initial_heap s0)) = Ret c →
  c_pc c = PJoin →
  c_threads c !! k = Some w →
  pending w = true →
  w_ptr w = thread_start_number ∧
  c_heap c !! thread_start_number = None ∧
  step vfuel cf (S k) c = Fault.
Proof.
  intros Hrun Hpc Hk Hpend.
  assert (Hinv : batch_inv cf s0 c ∧ cleared_inv c).
  { apply (run_invariant (λ c, batch_inv cf s0 c ∧ cleared_inv c)
             vfuel cf s0) with (sched := sched); [| | done].
    - split; [apply initial_inv |]. cbn. unfold initial_heap.
      by rewrite !lookup_insert_ne.
    - intros tid c1 c2 _ [Hb Hc] Hs. split.
      + by apply (step_inv vfuel cf s0 tid c1).
      + by apply (cleared_inv_step vfuel cf s0 tid c1). }
  destruct Hinv as [[_ Hptr] Hclr]. unfold cleared_inv in Hclr.
  rewrite Hpc in Hclr.
  pose proof (Forall_lookup_1 _ _ _ _ Hptr Hk) as Hw_ptr. cbn in Hw_ptr.
  split; [done |]. split; [done |].
  cbn [step]. rewrite Hk, (pending_faults vfuel w); [done | done |].
  by rewrite Hw_ptr.
Qed.

Lemma pending_thread_uses_cleared_integer_witness :
  ∃ c,
    run 100 (Settings 1 1) (main_steps 6) (initial_config (initial_heap 10))
      = Ret c ∧
    c_threads c !! O = Some (spawn thread_start_number 1) ∧
    c_heap c !! thread_start_number = None ∧
    step 100 (Settings 1 1) 1 c = Fault.
Proof.
  eexists. split; [vm_compute; reflexivity |]. split; [reflexivity |].
  exact (proj2 (pending_thread_uses_cleared_integer 100 (Settings 1 1) 10
                  (main_steps 6) _ 0 (spawn thread_start_number 1)
                  ltac:(vm_compute; reflexivity) eq_refl eq_refl eq_refl)).
Defined.

(** *** The launch loop *)

(** X22: the arithmetic of the launch loop, when no thread moves
    meanwhile: at its [i]th launch, for [i] up to the thread count and
    below [2^32], [thread_start_number] holds
    [S + i * iterations_per_thread], [i] threads have been launched, and
    the range [S] to [S + batch_size] has been printed. *)
Theorem launch_loop_offsets (vfuel : nat) (cf : settings) (s : Z) (i : nat)
    (c : config) :
  Z.of_nat i < 2 ^ 32 →
  Z.of_nat i ≤ thread_count cf →
  0 ≤ iterations_per_thread cf < 2 ^ 64 →
  run vfuel cf (main_steps (2 + 2 * i)) (initial_config (initial_heap s))
    = Ret c →
  c_heap c !! thread_start_number
    = Some (s + Z.of_nat i * iterations_per_thread cf) ∧
  c_pc c = PLaunch ∧
  c_threads c
    = replicate i (spawn thread_start_number (iterations_per_thread cf)) ∧
  c_out c = [(s, s + batch_size cf)].
Proof.
  intros Hi Hle Hipt.
  rewrite (launch_offsets vfuel cf s i) by (unfold UINT_BITS; lia || done).
  intros [= <-]. cbn [c_heap c_pc c_threads c_out].
  by rewrite lookup_insert_eq.
Qed.

Lemma launch_loop_offsets_witness :
  ∃ c, run 0 (Settings 4 5) (main_steps (2 + 2 * 3))
         (initial_config (initial_heap 10)) = Ret c ∧
       c_heap c !! thread_start_number = Some 25 ∧
       length (c_threads c) = 3%nat.
Proof.
  eexists. split; [vm_compute; reflexivity |].
  destruct (launch_loop_offsets 0 (Settings 4 5) 10 3 _
              ltac:(by vm_compute) ltac:(by vm_compute) ltac:(by vm_compute)
              ltac:(vm_compute; reflexivity)) as (Hcell & _ & Hths & _).
  split; [exact Hcell |]. by rewrite Hths.
Defined.

(** X23: with a thread count of [2^32] or more no batch is ever completed:
    under every schedule the main thread stays in its first launch loop,
    because the [unsigned i] of line 126 stays below the thread count. *)
Theorem launch_loop_never_ends (vfuel : nat) (cf : settings) (s0 : Z)
    (sched : list nat) (c : config) :
  2 ^ 32 ≤ thread_count cf →
  run vfuel cf sched (initial_config (initial_heap s0)) = Ret c →
  c_batches c = O ∧ c_pc c ≠ PClear ∧ c_pc c ≠ PJoin ∧ c_pc c ≠ PNext.
Proof.
  intros Htc Hrun.
  assert (Hinit : in_first_launch_loop (initial_config (initial_heap s0))).
  { split; [done |]. split; [cbn; unfold UINT_BITS; lia | done]. }
  destruct (launch_loop_wraps vfuel cf sched _ c Htc Hinit Hrun)
    as (Hb & _ & Hpc).
  split; [done |]. by destruct (c_pc c).
Qed.

Lemma launch_loop_never_ends_witness :
  ∃ c, run 0 (Settings (2 ^ 32) 1) (main_steps 40)
         (initial_config (initial_heap 1)) = Ret c ∧
       length (c_threads c) = 19%nat ∧
       c_batches c = O ∧ c_pc c ≠ PClear ∧ c_pc c ≠ PJoin ∧ c_pc c ≠ PNext.
Proof.
  eexists. split; [vm_compute; reflexivity |]. split; [reflexivity |].
  exact (launch_loop_never_ends 0 (Settings (2 ^ 32) 1) 1 (main_steps 40) _
           ltac:(by vm_compute) ltac:(vm_compute; reflexivity)).
Defined.
